(** * Google Calendar "New or Updated Event (Instant)" source

    A shallow embedding of
    [components/google_calendar/sources/new-or-updated-event-instant/new-or-updated-event-instant.mjs]
    and proofs about its subscription life cycle, its notification filter,
    its sync-token pagination and its event projection.

    Conventions of the embedding:
    - a JavaScript value that the component stores or compares is a [jsval]
      ([undefined], [null] or a string, which is what the calendar API and
      the key-value store hand over);
    - a JavaScript Number is a [number]: [Some z] for the integer [z] and
      [None] for [NaN] (all quantities of the component are millisecond
      counts far below 2^53, where doubles are exact);
    - strings are byte strings, read as UTF-8;
    - the component's collaborators (calendar API client, uuid generator,
      clock, [Date.parse]) are a [host]: each RPC answers its n-th call with
      the n-th element of a response sequence, [None] standing for a
      rejected promise;
    - effects (store writes, RPC calls, emissions, log lines) are threaded
      through a [world] by a state-and-exception monad [M]. *)

From stdpp Require Import base gmap strings pretty list.
From Stdlib Require Import ZArith Ascii Lia.

Open Scope Z_scope.

(** ** Values *)

Inductive jsval :=
| JUndef
| JNull
| JStr (s : string).

#[global] Instance jsval_eq_dec : EqDecision jsval.
Proof. solve_decision. Defined.

(** [ToBoolean]: [undefined], [null] and the empty string are falsy. *)
Definition truthy (v : jsval) : bool :=
  match v with
  | JStr s => bool_decide (s ≠ "")
  | _ => false
  end.

(** [ToString], as a template literal applies it. *)
Definition ToString (v : jsval) : string :=
  match v with
  | JUndef => "undefined"
  | JNull => "null"
  | JStr s => s
  end.

(** A Number: an integer or [NaN]. The Numbers of the component are time
    values and their differences, integers below 2^53 in magnitude, on which
    doubles are exact. *)
Definition number := option Z.

(** [String(n)] for a Number of that range: decimal digits, with a sign for
    negative integers (JavaScript switches to exponent notation from 1e21
    on, far above any time value). *)
Definition Number_toString (n : number) : string :=
  match n with
  | Some z => pretty z
  | None => "NaN"
  end.

(** [a > b] and [a <= b] on Numbers: any comparison with [NaN] is false. *)
Definition number_gt (a b : number) : bool :=
  match a, b with
  | Some x, Some y => bool_decide (y < x)
  | _, _ => false
  end.

Definition number_le (a b : number) : bool :=
  match a, b with
  | Some x, Some y => bool_decide (x <= y)
  | _, _ => false
  end.

Definition number_sub (a b : number) : number :=
  match a, b with
  | Some x, Some y => Some (x - y)
  | _, _ => None
  end.

Definition Math_abs (a : number) : number := Z.abs <$> a.

(** ** [parseInt] and [new Date(n).getTime()] *)

Definition is_ws (a : ascii) : bool :=
  let n := nat_of_ascii a in
  ((9 <=? n)%nat && (n <=? 13)%nat) || (n =? 32)%nat.

(** Leading white space is dropped: the ASCII blanks and line ends, and the
    UTF-8 forms of U+00A0, U+1680, U+2000..U+200A, U+2028, U+2029, U+202F,
    U+205F, U+3000 and U+FEFF. *)
Fixpoint skip_ws (s : string) : string :=
  match s with
  | String a r =>
      if is_ws a then skip_ws r
      else
        match s with
        | String "194" (String "160" r2) => skip_ws r2
        | String b0 (String b1 (String b2 r3)) =>
            let n0 := nat_of_ascii b0 in
            let n1 := nat_of_ascii b1 in
            let n2 := nat_of_ascii b2 in
            if ((n0 =? 225) && (n1 =? 154) && (n2 =? 128))%nat
               || ((n0 =? 226) && (n1 =? 128)
                   && (((128 <=? n2) && (n2 <=? 138)) || (n2 =? 168)
                       || (n2 =? 169) || (n2 =? 175)))%nat
               || ((n0 =? 226) && (n1 =? 129) && (n2 =? 159))%nat
               || ((n0 =? 227) && (n1 =? 128) && (n2 =? 128))%nat
               || ((n0 =? 239) && (n1 =? 187) && (n2 =? 191))%nat
            then skip_ws r3 else s
        | _ => s
        end
  | EmptyString => s
  end.

(** The value of a digit in the given radix (10 or 16). *)
Definition digit_val (radix : Z) (a : ascii) : option Z :=
  let n := Z.of_nat (nat_of_ascii a) in
  let v :=
    if (48 <=? n) && (n <=? 57) then Some (n - 48)
    else if (97 <=? n) && (n <=? 122) then Some (n - 87)
    else if (65 <=? n) && (n <=? 90) then Some (n - 55)
    else None in
  match v with
  | Some d => if d <? radix then Some d else None
  | None => None
  end.

(** The longest prefix of digits, read most significant first; [acc] is
    [None] until a digit has been seen. *)
Fixpoint parse_digits (radix : Z) (s : string) (acc : option Z) : option Z :=
  match s with
  | String a r =>
      match digit_val radix a with
      | Some d => parse_digits radix r (Some (default 0 acc * radix + d))
      | None => acc
      end
  | EmptyString => acc
  end.

(** The integer is accumulated exactly. JavaScript returns the nearest
    double, which differs from 2^53 on; the component passes the result to
    [new Date], which turns every value above 8.64e15 in magnitude into
    [NaN] ([Date_getTime] below), so the difference is never observed. *)
Definition parseInt_string (s : string) : number :=
  let s := skip_ws s in
  let '(sign, s) :=
    match s with
    | String "-" r => (-1, r)
    | String "+" r => (1, r)
    | _ => (1, s)
    end in
  let '(radix, s) :=
    match s with
    | String "0" (String "x" r) => (16, r)
    | String "0" (String "X" r) => (16, r)
    | _ => (10, s)
    end in
  match parse_digits radix s None with
  | Some n => Some (sign * n)
  | None => None
  end.

Definition parseInt (v : jsval) : number := parseInt_string (ToString v).

(** [new Date(n).getTime()]: the time value clipped to +-8.64e15 ms. *)
Definition Date_getTime (n : number) : number :=
  match n with
  | Some z => if bool_decide (Z.abs z <= 8640000000000000) then Some z else None
  | None => None
  end.

(** ** Calendar events and emitted metadata *)

Record calendar_event := {
  ev_id : jsval;
  ev_summary : jsval;
  ev_created : jsval;
  ev_updated : jsval;
  ev_status : jsval
}.

Record meta := {
  meta_id : string;
  meta_summary : jsval;
  meta_ts : number
}.

#[global] Instance calendar_event_eq_dec : EqDecision calendar_event.
Proof. solve_decision. Defined.

#[global] Instance meta_eq_dec : EqDecision meta.
Proof. solve_decision. Defined.

(** ** The component's collaborators *)

Record watch_data := {
  wd_id : jsval;
  wd_resourceId : jsval;
  wd_expiration : jsval
}.

(** The [data] of a [list] response; absent items are the empty list. *)
Record list_data := {
  ld_nextPageToken : jsval;
  ld_nextSyncToken : jsval;
  ld_items : list calendar_event
}.

Record list_response := {
  lr_status : Z;
  lr_data : option list_data
}.

(** [{}], the default of [data: syncData = {}]. *)
Definition empty_data : list_data :=
  {| ld_nextPageToken := JUndef; ld_nextSyncToken := JUndef; ld_items := [] |}.

(** The n-th call of an RPC is answered by the n-th element of its
    sequence; [None] is a rejected promise. *)
Record host := {
  Date_parse : jsval → number;
  clock : Z;
  endpoint : jsval;
  uuid : nat → string;
  watch_resp : nat → option watch_data;
  fullSync_resp : nat → option jsval;
  stop_resp : nat → option Z;
  list_resp : nat → option list_response
}.

(** The props the methods read from [this]. *)
Record component := {
  calendarIds : list string;
  newOnly : bool
}.

(** A trigger of [run]: a timer tick carries [interval_seconds], an HTTP
    notification carries [headers]. *)
Record trigger := {
  interval_seconds : option Z;
  headers : option (gmap string jsval)
}.

(** ** Observable effects and the world they act on *)

Inductive io_event :=
| CallWatch (calendarId : string) (id address : jsval)
| CallFullSync (calendarId : jsval)
| CallStop (id resourceId : jsval)
| CallList (calendarId : string) (syncToken pageToken : jsval)
| DbSet (key : string) (v : jsval)
| Emit (e : calendar_event) (m : meta)
| Log (msg : string).

#[global] Instance io_event_eq_dec : EqDecision io_event.
Proof. solve_decision. Defined.

Record world := {
  db : gmap string jsval;
  trace : list io_event;
  n_uuid : nat;
  n_watch : nat;
  n_fullSync : nat;
  n_stop : nat;
  n_list : nat
}.

Definition with_db (f : gmap string jsval → gmap string jsval) (w : world) : world :=
  {| db := f (db w); trace := trace w; n_uuid := n_uuid w; n_watch := n_watch w;
     n_fullSync := n_fullSync w; n_stop := n_stop w; n_list := n_list w |}.

Definition record (e : io_event) (w : world) : world :=
  {| db := db w; trace := trace w ++ [e]; n_uuid := n_uuid w; n_watch := n_watch w;
     n_fullSync := n_fullSync w; n_stop := n_stop w; n_list := n_list w |}.

Definition tick_uuid (w : world) : world :=
  {| db := db w; trace := trace w; n_uuid := S (n_uuid w); n_watch := n_watch w;
     n_fullSync := n_fullSync w; n_stop := n_stop w; n_list := n_list w |}.

Definition tick_watch (w : world) : world :=
  {| db := db w; trace := trace w; n_uuid := n_uuid w; n_watch := S (n_watch w);
     n_fullSync := n_fullSync w; n_stop := n_stop w; n_list := n_list w |}.

Definition tick_fullSync (w : world) : world :=
  {| db := db w; trace := trace w; n_uuid := n_uuid w; n_watch := n_watch w;
     n_fullSync := S (n_fullSync w); n_stop := n_stop w; n_list := n_list w |}.

Definition tick_stop (w : world) : world :=
  {| db := db w; trace := trace w; n_uuid := n_uuid w; n_watch := n_watch w;
     n_fullSync := n_fullSync w; n_stop := S (n_stop w); n_list := n_list w |}.

Definition tick_list (w : world) : world :=
  {| db := db w; trace := trace w; n_uuid := n_uuid w; n_watch := n_watch w;
     n_fullSync := n_fullSync w; n_stop := n_stop w; n_list := S (n_list w) |}.

(** ** The monad of an invocation *)

Inductive outcome (A : Type) :=
| Done (a : A)
| Thrown
| OutOfFuel.

Arguments Done {A} a.
Arguments Thrown {A}.
Arguments OutOfFuel {A}.

Definition M (A : Type) : Type := world → outcome A * world.

Definition ret {A} (a : A) : M A := λ w, (Done a, w).

Definition bind {A B} (c : M A) (k : A → M B) : M B :=
  λ w,
    match c w with
    | (Done a, w') => k a w'
    | (Thrown, w') => (Thrown, w')
    | (OutOfFuel, w') => (OutOfFuel, w')
    end.

Notation "'let*' x ':=' c 'in' k" := (bind c (λ x, k))
  (at level 10, x name, c at level 100, k at level 200, only parsing).
Notation "c ';;;' k" := (bind c (λ _, k))
  (at level 100, k at level 200, right associativity, only parsing).

(** [for (const x of l) body(x)] *)
Fixpoint for_of {A} (l : list A) (body : A → M unit) : M unit :=
  match l with
  | [] => ret tt
  | x :: r => body x ;;; for_of r body
  end.

Definition settle {A} (r : option A) : outcome A :=
  match r with
  | Some a => Done a
  | None => Thrown
  end.

(** [db.get(key)]: a key never set reads as [undefined]. *)
Definition db_lookup (store : gmap string jsval) (key : string) : jsval :=
  default JUndef (store !! key).

Section Component.
Context (h : host) (this : component).

(** *** Primitive effects *)

Definition db_get (key : string) : M jsval :=
  λ w, (Done (db_lookup (db w) key), w).

Definition db_set (key : string) (v : jsval) : M unit :=
  λ w, (Done tt, record (DbSet key v) (with_db (insert key v) w)).

Definition console_log (msg : string) : M unit :=
  λ w, (Done tt, record (Log msg) w).

Definition emit (e : calendar_event) (m : meta) : M unit :=
  λ w, (Done tt, record (Emit e m) w).

Definition new_uuid : M string :=
  λ w, (Done (uuid h (n_uuid w)), tick_uuid w).

Definition googleCalendar_watch (calendarId : string) (id address : jsval)
  : M watch_data :=
  λ w, (settle (watch_resp h (n_watch w)),
        tick_watch (record (CallWatch calendarId id address) w)).

Definition googleCalendar_fullSync (calendarId : jsval) : M jsval :=
  λ w, (settle (fullSync_resp h (n_fullSync w)),
        tick_fullSync (record (CallFullSync calendarId) w)).

Definition googleCalendar_stop (id resourceId : jsval) : M Z :=
  λ w, (settle (stop_resp h (n_stop w)),
        tick_stop (record (CallStop id resourceId) w)).

Definition googleCalendar_list (calendarId : string) (syncToken pageToken : jsval)
  : M list_response :=
  λ w, (settle (list_resp h (n_list w)),
        tick_list (record (CallList calendarId syncToken pageToken) w)).

(** *** Methods *)

Definition _isNewEvent (event : calendar_event) : bool :=
  let createdTimestampMilliseconds := Date_parse h (ev_created event) in
  let updatedTimestampMilliseconds := Date_parse h (ev_updated event) in
  let diffMilliseconds :=
    Math_abs (number_sub updatedTimestampMilliseconds
                         createdTimestampMilliseconds) in
  let maxDiffMilliseconds := Some 2000 in
  number_le diffMilliseconds maxDiffMilliseconds.

Definition isEventRelevant (event : calendar_event) : bool :=
  negb (newOnly this) || _isNewEvent event.

Definition generateMeta (event : calendar_event) : meta :=
  let ts := Date_parse h (ev_updated event) in
  {| meta_id := ToString (ev_id event) +:+ "-" +:+ Number_toString ts;
     meta_summary := ev_summary event;
     meta_ts := ts |}.

Definition makeWatchRequest_body (calendarId : string) : M unit :=
  let* id := new_uuid in
  let* data := googleCalendar_watch calendarId (JStr id) (endpoint h) in
  let* nextSyncToken := googleCalendar_fullSync (JStr calendarId) in
  db_set (calendarId +:+ ".nextSyncToken") nextSyncToken ;;;
  db_set (calendarId +:+ ".channelId") (wd_id data) ;;;
  db_set (calendarId +:+ ".resourceId") (wd_resourceId data) ;;;
  db_set (calendarId +:+ ".expiration") (wd_expiration data).

Definition makeWatchRequest : M unit :=
  for_of (calendarIds this) makeWatchRequest_body.

Definition stopWatchRequest_body (calendarId : string) : M unit :=
  let* id := db_get (calendarId +:+ ".channelId") in
  let* resourceId := db_get (calendarId +:+ ".resourceId") in
  if truthy id && truthy resourceId then
    let* status := googleCalendar_stop id resourceId in
    if bool_decide (status = 204) then
      console_log "webhook deactivated" ;;;
      db_set (calendarId +:+ ".nextSyncToken") JNull ;;;
      db_set (calendarId +:+ ".channelId") JNull ;;;
      db_set (calendarId +:+ ".resourceId") JNull ;;;
      db_set (calendarId +:+ ".expiration") JNull
    else
      console_log "There was a problem deactivating the webhook"
  else ret tt.

Definition stopWatchRequest : M unit :=
  for_of (calendarIds this) stopWatchRequest_body.

(** *** Hooks *)

Definition activate : M unit := makeWatchRequest.
Definition deactivate : M unit := stopWatchRequest.

(** *** [run] *)

(** The body of the [forEach] over the relevant events of a page. *)
Definition emit_event (event : calendar_event) : M unit :=
  if bool_decide (ev_status event = JStr "cancelled") then
    console_log "Event cancelled. Exiting."
  else
    emit event (generateMeta event).

Definition emit_page (events : list calendar_event) : M unit :=
  for_of (List.filter isEventRelevant events) emit_event.

(** [while (!nextSyncToken) { ... }]; the result is the value of
    [nextSyncToken] when the loop is left. [this.calendarId] is not a
    prop of the component: it reads as [undefined]. *)
Fixpoint fetch_loop (fuel : nat) (calendarId : string) (syncToken : jsval)
    (nextSyncToken nextPageToken : jsval) : M jsval :=
  if truthy nextSyncToken then ret nextSyncToken
  else
    match fuel with
    | O => λ w, (OutOfFuel, w)
    | S fuel' =>
        let* resp := googleCalendar_list calendarId syncToken nextPageToken in
        let syncData := default empty_data (lr_data resp) in
        if bool_decide (lr_status resp = 410) then
          console_log "Sync token invalid, resyncing" ;;;
          googleCalendar_fullSync JUndef
        else
          emit_page (ld_items syncData) ;;;
          fetch_loop fuel' calendarId syncToken
            (ld_nextSyncToken syncData) (ld_nextPageToken syncData)
    end.

Definition fetch_calendar (fuel : nat) (calendarId : string) : M unit :=
  let* syncToken := db_get (calendarId +:+ ".nextSyncToken") in
  let* nextSyncToken := fetch_loop fuel calendarId syncToken JNull JNull in
  db_set (calendarId +:+ ".nextSyncToken") nextSyncToken.

Definition fetch_and_emit (fuel : nat) : M unit :=
  for_of (calendarIds this) (fetch_calendar fuel).

(** [for (const calendarId of this.calendarIds) channelIds.push(...)] *)
Fixpoint collect_channelIds (ids : list string) (channelIds : list jsval)
  : M (list jsval) :=
  match ids with
  | [] => ret channelIds
  | calendarId :: rest =>
      let* channelId := db_get (calendarId +:+ ".channelId") in
      collect_channelIds rest (channelIds ++ [channelId])
  end.

Definition header (event : trigger) (name : string) : jsval :=
  match headers event with
  | Some hs => default JUndef (hs !! name)
  | None => JUndef
  end.

(** [event.interval_seconds] as a condition: a Number other than 0. *)
Definition is_tick (event : trigger) : option Z :=
  match interval_seconds event with
  | Some s => if bool_decide (s = 0) then None else Some s
  | None => None
  end.

(** [`${this.calendarIds[0]}`] *)
Definition first_calendarId : string :=
  match calendarIds this with
  | c :: _ => c
  | [] => "undefined"
  end.

Definition run (fuel : nat) (event : trigger) : M unit :=
  match is_tick event with
  | Some secs =>
      let now := Some (clock h) in
      let intervalMs := secs * 1000 in
      let* expiration := db_get (first_calendarId +:+ ".expiration") in
      let expireDate := Date_getTime (parseInt expiration) in
      if number_gt ((λ t, t + intervalMs) <$> now) expireDate then
        makeWatchRequest ;;;
        stopWatchRequest
      else ret tt
  | None =>
      let* channelIds := collect_channelIds (calendarIds this) [] in
      let incomingChannelId := header event "x-goog-channel-id" in
      if negb (bool_decide (incomingChannelId ∈ channelIds)) then
        console_log ("Unexpected channel ID " +:+ ToString incomingChannelId
          +:+ ". This likely means there are multiple, older subscriptions active.")
      else
        let state := header event "x-goog-resource-state" in
        if bool_decide (state = JStr "exists") then
          fetch_and_emit fuel
        else if bool_decide (state = JStr "not_exists") then
          console_log "Resource does not exist. Exiting."
        else if bool_decide (state = JStr "sync") then
          console_log "New channel created"
        else
          console_log ("Unknown state: " +:+ ToString state)
  end.

End Component.

(** ** One [Date.parse]

    [Date.parse] belongs to the host, and the statements below hold for
    every host. The worked scenarios need one: this is the ECMAScript
    date-time string format in its complete UTC form,
    [YYYY-MM-DDTHH:mm:ss.sssZ], which is what the calendar API sends;
    everything else is [NaN] here. *)

Fixpoint read_digits (n : nat) (s : string) (acc : Z) : option (Z * string) :=
  match n with
  | O => Some (acc, s)
  | S n' =>
      match s with
      | String a r => d ← digit_val 10 a; read_digits n' r (acc * 10 + d)
      | EmptyString => None
      end
  end.

Definition expect (c : ascii) (s : string) : option string :=
  match s with
  | String a r => if Ascii.eqb a c then Some r else None
  | EmptyString => None
  end.

(** Days between 1970-01-01 and the given day of the proleptic Gregorian
    calendar. *)
Definition days_from_civil (y m d : Z) : Z :=
  let y' := if m <=? 2 then y - 1 else y in
  let era := y' / 400 in
  let yoe := y' - era * 400 in
  let mp := (m + 9) mod 12 in
  let doy := (153 * mp + 2) / 5 + d - 1 in
  let doe := yoe * 365 + yoe / 4 - yoe / 100 + doy in
  era * 146097 + doe - 719468.

Definition is_leap (y : Z) : bool :=
  ((y mod 4 =? 0) && negb (y mod 100 =? 0)) || (y mod 400 =? 0).

Definition days_in_month (y m : Z) : Z :=
  if m =? 2 then (if is_leap y then 29 else 28)
  else if (m =? 4) || (m =? 6) || (m =? 9) || (m =? 11) then 30
  else 31.

Definition Date_parse_utc (v : jsval) : number :=
  match v with
  | JStr s =>
      '(y, s) ← read_digits 4 s 0;
      s ← expect "-" s;
      '(mo, s) ← read_digits 2 s 0;
      s ← expect "-" s;
      '(d, s) ← read_digits 2 s 0;
      s ← expect "T" s;
      '(hh, s) ← read_digits 2 s 0;
      s ← expect ":" s;
      '(mi, s) ← read_digits 2 s 0;
      s ← expect ":" s;
      '(ss, s) ← read_digits 2 s 0;
      s ← expect "." s;
      '(ms, s) ← read_digits 3 s 0;
      s ← expect "Z" s;
      if bool_decide (s = "")
         && (1 <=? mo) && (mo <=? 12) && (1 <=? d) && (d <=? days_in_month y mo)
         && ((hh <=? 23) || ((hh =? 24) && (mi =? 0) && (ss =? 0) && (ms =? 0)))
         && (mi <=? 59) && (ss <=? 59)
      then Some ((((days_from_civil y mo d * 24 + hh) * 60 + mi) * 60 + ss) * 1000 + ms)
      else None
  | _ => None
  end.

(** ** Worked scenarios *)

Definition world0 (store : gmap string jsval) : world :=
  {| db := store; trace := []; n_uuid := 0; n_watch := 0; n_fullSync := 0;
     n_stop := 0; n_list := 0 |}.

Definition timer_tick (secs : Z) : trigger :=
  {| interval_seconds := Some secs; headers := None |}.

Definition notification (channelId resourceState : string) : trigger :=
  {| interval_seconds := None;
     headers := Some (<["x-goog-channel-id" := JStr channelId]>
                      (<["x-goog-resource-state" := JStr resourceState]> ∅)) |}.

Definition mk_event (id created updated status : string) : calendar_event :=
  {| ev_id := JStr id; ev_summary := JStr ("event " +:+ id);
     ev_created := JStr created; ev_updated := JStr updated;
     ev_status := JStr status |}.

Definition one_calendar (flag : bool) : component :=
  {| calendarIds := ["cal"]; newOnly := flag |}.

Definition two_calendars : component :=
  {| calendarIds := ["work"; "home"]; newOnly := false |}.

(** A store holding one established watch on ["cal"], expiring at
    1700000000000 ms. *)
Definition watched_store : gmap string jsval :=
  <["cal.nextSyncToken" := JStr "tok0"]>
    (<["cal.channelId" := JStr "old-ch"]>
       (<["cal.resourceId" := JStr "old-res"]>
          (<["cal.expiration" := JStr "1700000000000"]> ∅))).

(** A host whose clock stands at [now]; the watch RPC answers with the
    channel ["new-ch"], the stop RPC with [stop_status]. *)
Definition renewal_host (now stop_status : Z) : host :=
  {| Date_parse := Date_parse_utc;
     clock := now;
     endpoint := JStr "https://endpoint.example/hook";
     uuid := λ _, "new-ch";
     watch_resp := λ _, Some {| wd_id := JStr "new-ch";
                               wd_resourceId := JStr "new-res";
                               wd_expiration := JStr "1700600000000" |};
     fullSync_resp := λ _, Some (JStr "tok1");
     stop_resp := λ _, Some stop_status;
     list_resp := λ _, None |}.

Definition page (next_page next_sync : jsval) (evs : list calendar_event)
  : option list_response :=
  Some {| lr_status := 200;
          lr_data := Some {| ld_nextPageToken := next_page;
                             ld_nextSyncToken := next_sync;
                             ld_items := evs |} |}.

Definition gone : option list_response :=
  Some {| lr_status := 410; lr_data := None |}.

Definition ev_a : calendar_event :=
  mk_event "a" "2023-05-01T12:00:00.000Z" "2023-05-01T12:00:01.000Z" "confirmed".
Definition ev_b : calendar_event :=
  mk_event "b" "2023-05-01T12:00:00.000Z" "2023-05-02T08:30:00.000Z" "confirmed".
Definition ev_c : calendar_event :=
  mk_event "c" "2023-05-01T12:00:00.000Z" "2023-05-01T12:00:00.500Z" "cancelled".
Definition ev_d : calendar_event :=
  mk_event "d" "2023-05-03T09:00:00.000Z" "2023-05-03T09:00:00.000Z" "confirmed".

(** Two items of the scenarios: one updated exactly 2000 ms after its
    creation, one 2001 ms after. *)
Definition ev_at_2000 : calendar_event :=
  mk_event "e" "2023-05-01T12:00:00.000Z" "2023-05-01T12:00:02.000Z" "confirmed".
Definition ev_at_2001 : calendar_event :=
  mk_event "e" "2023-05-01T12:00:00.000Z" "2023-05-01T12:00:02.001Z" "confirmed".

(** A host whose [list] RPC answers with the given feed, then with empty
    final pages carrying the token ["tok-end"]. *)
Definition feed_host (feed : list (option list_response)) : host :=
  {| Date_parse := Date_parse_utc;
     clock := 1699000000000;
     endpoint := JStr "https://endpoint.example/hook";
     uuid := λ n, "ch-" +:+ pretty (Z.of_nat n);
     watch_resp := λ n, Some {| wd_id := JStr ("ch-" +:+ pretty (Z.of_nat n));
                               wd_resourceId := JStr ("res-" +:+ pretty (Z.of_nat n));
                               wd_expiration := JStr "1700600000000" |};
     fullSync_resp := λ _, Some (JStr "tok-resync");
     stop_resp := λ _, Some 204;
     list_resp := λ n, default (page JUndef (JStr "tok-end") []) (feed !! n) |}.

(** A store holding established watches on ["work"] and ["home"]. *)
Definition two_store : gmap string jsval :=
  <["work.nextSyncToken" := JStr "work-0"]>
    (<["work.channelId" := JStr "ch-work"]>
       (<["work.resourceId" := JStr "res-work"]>
          (<["work.expiration" := JStr "1700000000000"]>
             (<["home.nextSyncToken" := JStr "home-0"]>
                (<["home.channelId" := JStr "ch-home"]>
                   (<["home.resourceId" := JStr "res-home"]>
                      (<["home.expiration" := JStr "1700000000000"]> ∅))))))).

(** Two pages for the first calendar, one for the second. *)
Definition two_feed : list (option list_response) :=
  [ page (JStr "p2") JUndef [ev_a];
    page JUndef (JStr "work-1") [ev_b];
    page JUndef (JStr "home-1") [ev_d] ].

(** A host whose stop RPC succeeds for the first channel and fails with
    status 500 from then on. *)
Definition partial_stop_host : host :=
  {| Date_parse := Date_parse_utc;
     clock := 1699000000000;
     endpoint := JStr "https://endpoint.example/hook";
     uuid := λ n, "ch-" +:+ pretty (Z.of_nat n);
     watch_resp := λ n, Some {| wd_id := JStr ("ch-" +:+ pretty (Z.of_nat n));
                               wd_resourceId := JStr ("res-" +:+ pretty (Z.of_nat n));
                               wd_expiration := JStr "1700600000000" |};
     fullSync_resp := λ n, Some (JStr ("tok-" +:+ pretty (Z.of_nat n)));
     stop_resp := λ n, Some (if bool_decide (n = 0%nat) then 204 else 500);
     list_resp := λ _, None |}.

(** Three pages, the second of which is answered with status 410. *)
Definition invalidated_feed : list (option list_response) :=
  [ page (JStr "p2") JUndef [ev_a; ev_b];
    gone;
    page JUndef (JStr "tok-3") [ev_d] ].

(** ** Vocabulary of the statements *)

(** The channel ids persisted for the watched calendars. *)
Definition persisted_channelIds (this : component) (w : world) : list jsval :=
  (λ calendarId, db_lookup (db w) (calendarId +:+ ".channelId"))
    <$> calendarIds this.

(** The four fields persisted per calendar. *)
Definition calendar_fields : list string :=
  [".nextSyncToken"; ".channelId"; ".resourceId"; ".expiration"].

(** The effects an invocation adds to a world: [w'] continues [w] by
    exactly the events [new]. *)
Definition continues (w w' : world) (new : list io_event) : Prop :=
  trace w' = trace w ++ new.

Definition is_network_call (e : io_event) : bool :=
  match e with
  | CallWatch _ _ _ | CallFullSync _ | CallStop _ _ | CallList _ _ _ => true
  | _ => false
  end.

Definition is_emit (e : io_event) : bool :=
  match e with
  | Emit _ _ => true
  | _ => false
  end.

(** A computation that only ever adds events satisfying [P] to the trace. *)
Definition appends {A} (P : io_event → Prop) (c : M A) : Prop :=
  ∀ w, ∃ new, continues w (c w).2 new ∧ Forall P new.

(** An event that is not the emission of a cancelled calendar event. *)
Definition not_cancelled_emit (e : io_event) : Prop :=
  match e with
  | Emit ev _ => ev_status ev ≠ JStr "cancelled"
  | _ => True
  end.

(** The world after the events [es] have been recorded. *)
Definition record_all (es : list io_event) (w : world) : world :=
  {| db := db w; trace := trace w ++ es; n_uuid := n_uuid w; n_watch := n_watch w;
     n_fullSync := n_fullSync w; n_stop := n_stop w; n_list := n_list w |}.

(** What one page of events leaves in the trace. *)
Definition page_effects (h : host) (this : component)
    (events : list calendar_event) : list io_event :=
  (λ ev, if bool_decide (ev_status ev = JStr "cancelled")
         then Log "Event cancelled. Exiting."
         else Emit ev (generateMeta h ev))
    <$> List.filter (isEventRelevant h this) events.

(** A [list] response that ends the pagination loop: status 410, or a
    truthy [nextSyncToken]. *)
Definition ends_pagination (r : list_response) : bool :=
  bool_decide (lr_status r = 410)
  || truthy (ld_nextSyncToken (default empty_data (lr_data r))).

(** A host whose [list] and [fullSync] RPCs never reject and whose [list]
    responses, from any point on, eventually end the pagination. *)
Definition responsive (h : host) : Prop :=
  (∀ n, is_Some (list_resp h n)) ∧
  (∀ n, is_Some (fullSync_resp h n)) ∧
  (∀ n, ∃ k r, list_resp h (n + k)%nat = Some r ∧ ends_pagination r = true).

(** ** Vocabulary of the further properties *)

(** A computation that leaves every key outside [K] as it was. *)
Definition frames {A} (K : string → Prop) (c : M A) : Prop :=
  ∀ w key, ¬ K key → db (c w).2 !! key = db w !! key.

(** The keys of the calendars [ids]: all four fields, or the sync token
    only. *)
Definition calendar_key (ids : list string) (key : string) : Prop :=
  ∃ c f, c ∈ ids ∧ f ∈ calendar_fields ∧ key = c +:+ f.

Definition sync_token_key (ids : list string) (key : string) : Prop :=
  ∃ c, c ∈ ids ∧ key = c +:+ ".nextSyncToken".

(** A calendar for which [stopWatchRequest] finds a channel to stop. *)
Definition has_channel (store : gmap string jsval) (c : string) : bool :=
  truthy (db_lookup store (c +:+ ".channelId"))
  && truthy (db_lookup store (c +:+ ".resourceId")).

(** The effects a notification may have. *)
Definition notification_effect (h : host) (this : component) (e : io_event)
  : Prop :=
  match e with
  | CallList c _ _ => c ∈ calendarIds this
  | CallFullSync c => c = JUndef
  | Emit ev m =>
      m = generateMeta h ev ∧ isEventRelevant h this ev = true ∧
      ev_status ev ≠ JStr "cancelled"
  | DbSet key _ => sync_token_key (calendarIds this) key
  | Log _ => True
  | CallWatch _ _ _ | CallStop _ _ => False
  end.

(** The effects [makeWatchRequest] may have. *)
Definition activation_effect (h : host) (this : component) (e : io_event)
  : Prop :=
  match e with
  | CallWatch c id address =>
      c ∈ calendarIds this ∧ address = endpoint h ∧ ∃ n, id = JStr (uuid h n)
  | CallFullSync c => ∃ c', c' ∈ calendarIds this ∧ c = JStr c'
  | DbSet key _ => calendar_key (calendarIds this) key
  | _ => False
  end.

(** The effects [stopWatchRequest] may have. *)
Definition teardown_effect (this : component) (e : io_event) : Prop :=
  match e with
  | CallStop id resourceId => truthy id = true ∧ truthy resourceId = true
  | DbSet key v => v = JNull ∧ calendar_key (calendarIds this) key
  | Log _ => True
  | _ => False
  end.

(** The data a [list] response carries, [{}] when it has none. *)
Definition response_data (r : list_response) : list_data :=
  default empty_data (lr_data r).

(** The trace of paginating through the responses [rs] with sync token
    [tok], the first request carrying the page token [npt] and each further
    request the [nextPageToken] of the response before it. *)
Fixpoint feed_trace (h : host) (this : component) (c : string)
    (tok npt : jsval) (rs : list list_response) : list io_event :=
  match rs with
  | [] => []
  | r :: rest =>
      CallList c tok npt
        :: page_effects h this (ld_items (response_data r))
        ++ feed_trace h this c tok (ld_nextPageToken (response_data r)) rest
  end.

(** A host whose [list] RPC always answers with status 200 and no data. *)
Definition stuck_host : host :=
  {| Date_parse := Date_parse_utc;
     clock := 1699000000000;
     endpoint := JStr "https://endpoint.example/hook";
     uuid := λ _, "ch";
     watch_resp := λ _, None;
     fullSync_resp := λ _, None;
     stop_resp := λ _, None;
     list_resp := λ _, Some {| lr_status := 200; lr_data := None |} |}.

(** Strings of decimal digits. *)
Definition is_digit (a : ascii) : bool :=
  let n := nat_of_ascii a in (48 <=? n)%nat && (n <=? 57)%nat.

Fixpoint all_digits (s : string) : bool :=
  match s with
  | EmptyString => true
  | String a r => is_digit a && all_digits r
  end.

(** A string without the character ["-"]. *)
Definition dash_free (s : string) : Prop :=
  ∀ x y, s ≠ x +:+ String "-" y.

(** A Number that is [NaN] or not negative. *)
Definition not_negative (n : number) : Prop :=
  match n with
  | Some z => 0 <= z
  | None => True
  end.

(** ** The options of the [calendarIds] prop *)

Record calendar_list_entry := {
  cl_id : jsval;
  cl_summary : jsval
}.

Record prop_option := {
  opt_value : jsval;
  opt_label : jsval
}.

(** The response of [calendarList()]: the response itself, its [data] and
    the [items] of the data may each be missing. *)
Definition calendar_list_response : Type :=
  option (option (option (list calendar_list_entry))).

(** [calListResp?.data?.items ?? []] *)
Definition calendars_of (calListResp : calendar_list_response)
  : list calendar_list_entry :=
  match calListResp with
  | Some (Some (Some items)) => items
  | _ => []
  end.

(** [options()], from the response [calendarList()] resolved to. *)
Definition calendarIds_options (calListResp : calendar_list_response)
  : list prop_option :=
  let calendars := calendars_of calListResp in
  if negb (length calendars =? 0)%nat then
    let calendarIds :=
      (λ item, {| opt_value := cl_id item; opt_label := cl_summary item |})
        <$> calendars in
    calendarIds
  else [].

(** A notification that carries a resource state but no channel-id
    header. *)
Definition headerless_notification (resourceState : string) : trigger :=
  {| interval_seconds := None;
     headers := Some {["x-goog-resource-state" := JStr resourceState]} |}.

(** The pagination of one calendar as the host answers it.
    [paginates h this c tok n m npt seg v n' m'] reads: starting with the
    [n]-th [list] response and the [m]-th [fullSync] response, and with page
    token [npt], the loop leaves the events [seg] in the trace, ends with
    the token [v], and the next responses are the [n']-th and the [m']-th.
    Every step issues one [list] request with the sync token [tok] and the
    current page token; a 410 answer ends the loop with the result of the
    resync, a page with a truthy [nextSyncToken] ends it with that token
    after its events, and any other page is followed by a request carrying
    its [nextPageToken]. *)
Inductive paginates (h : host) (this : component) (c : string) (tok : jsval)
  : nat → nat → jsval → list io_event → jsval → nat → nat → Prop :=
| paginates_invalidated (n m : nat) (npt : jsval) (r : list_response) (v : jsval) :
    list_resp h n = Some r → lr_status r = 410 →
    fullSync_resp h m = Some v →
    paginates h this c tok n m npt
      [ CallList c tok npt; Log "Sync token invalid, resyncing";
        CallFullSync JUndef ]
      v (S n) (S m)
| paginates_final (n m : nat) (npt : jsval) (r : list_response) :
    list_resp h n = Some r → lr_status r ≠ 410 →
    truthy (ld_nextSyncToken (response_data r)) = true →
    paginates h this c tok n m npt
      (CallList c tok npt :: page_effects h this (ld_items (response_data r)))
      (ld_nextSyncToken (response_data r)) (S n) m
| paginates_next (n m : nat) (npt : jsval) (r : list_response)
    (seg : list io_event) (v : jsval) (n' m' : nat) :
    list_resp h n = Some r → lr_status r ≠ 410 →
    truthy (ld_nextSyncToken (response_data r)) = false →
    paginates h this c tok (S n) m (ld_nextPageToken (response_data r))
      seg v n' m' →
    paginates h this c tok n m npt
      (CallList c tok npt
         :: page_effects h this (ld_items (response_data r)) ++ seg)
      v n' m'.

(** The events [new] visit the calendars [ids] in order, from the store
    [store] and the response positions [n] and [m], and end with the store
    [store']: for each calendar the pagination with the sync token read from
    the store, from no page token, followed by the write of the token the
    pagination ended with, which the next calendars find in the store. *)
Fixpoint visits_paginating (h : host) (this : component) (ids : list string)
    (store : gmap string jsval) (n m : nat) (new : list io_event)
    (store' : gmap string jsval) : Prop :=
  match ids with
  | [] => new = [] ∧ store' = store
  | c :: rest =>
      ∃ seg v n' m' new',
        paginates h this c (db_lookup store (c +:+ ".nextSyncToken"))
          n m JNull seg v n' m' ∧
        new = seg ++ DbSet (c +:+ ".nextSyncToken") v :: new' ∧
        visits_paginating h this rest
          (<[c +:+ ".nextSyncToken" := v]> store) n' m' new' store'
  end.

(** The effects of a [stopWatchRequest] that starts from the store
    [store]: stop requests for the channel id and resource id that [store]
    holds for a configured calendar, log lines, and writes of [null] to the
    fields of configured calendars. *)
Definition teardown_effect_from (ids : list string)
    (store : gmap string jsval) (e : io_event) : Prop :=
  match e with
  | CallStop id resourceId =>
      truthy id = true ∧ truthy resourceId = true ∧
      ∃ c, c ∈ ids ∧ id = db_lookup store (c +:+ ".channelId") ∧
           resourceId = db_lookup store (c +:+ ".resourceId")
  | DbSet key v => v = JNull ∧ calendar_key ids key
  | Log _ => True
  | _ => False
  end.

(** * Properties *)

(** ** Numbers and keys *)

Lemma pretty_N_go_not_N (x : N) (s t : string) :
  (∀ t', s ≠ String "N" t') → pretty_N_go x s ≠ String "N" t.
Proof.
  revert s. induction (N.lt_wf_0 x) as [x _ IH]; intros s Hs.
  destruct (decide (x = 0%N)) as [->|Hx].
  - rewrite pretty_N_go_0. apply Hs.
  - rewrite pretty_N_go_step by lia. apply IH.
    + apply N.div_lt; lia.
    + intros t'. unfold pretty_N_char. by repeat case_match.
Qed.

Lemma pretty_Z_not_NaN (z : Z) : pretty z ≠ "NaN".
Proof.
  destruct z as [|p|p]; [done| |done].
  unfold pretty, pretty_Z, pretty, pretty_positive, pretty, pretty_N.
  case_decide; [done|]. by apply pretty_N_go_not_N.
Qed.

(** Distinct Numbers print differently. *)
Lemma Number_toString_inj (a b : number) :
  Number_toString a = Number_toString b → a = b.
Proof.
  destruct a as [x|], b as [y|]; simpl; intros Heq.
  - f_equal. by apply (inj pretty).
  - by destruct (pretty_Z_not_NaN x).
  - by destruct (pretty_Z_not_NaN y).
  - done.
Qed.

(** The keys of one calendar are pairwise distinct. *)
Lemma key_field_ne (c f g : string) : f ≠ g → c +:+ f ≠ c +:+ g.
Proof. intros Hne Heq. apply Hne. by eapply (inj (String.append c)). Qed.

(** ** Monad equations *)

Lemma bind_ret_l {A B} (a : A) (k : A → M B) (w : world) :
  bind (ret a) k w = k a w.
Proof. done. Qed.

Lemma bind_Done {A B} (c : M A) (k : A → M B) (w w1 : world) (a : A) :
  c w = (Done a, w1) → bind c k w = k a w1.
Proof. unfold bind. by intros ->. Qed.

Lemma bind_Thrown {A B} (c : M A) (k : A → M B) (w w1 : world) :
  c w = (Thrown, w1) → bind c k w = (Thrown, w1).
Proof. unfold bind. by intros ->. Qed.

Lemma bind_OutOfFuel {A B} (c : M A) (k : A → M B) (w w1 : world) :
  c w = (OutOfFuel, w1) → bind c k w = (OutOfFuel, w1).
Proof. unfold bind. by intros ->. Qed.

(** ** Relevance (C5) and dedupe ids (C6) *)

Lemma _isNewEvent_spec (h : host) (item : calendar_event) :
  _isNewEvent h item = true ↔
  ∃ created updated : Z,
    Date_parse h (ev_created item) = Some created ∧
    Date_parse h (ev_updated item) = Some updated ∧
    Z.abs (updated - created) <= 2000.
Proof.
  unfold _isNewEvent.
  destruct (Date_parse h (ev_created item)) as [c|],
           (Date_parse h (ev_updated item)) as [u|]; simpl.
  - rewrite bool_decide_eq_true. split.
    + intros Hle. by exists c, u.
    + by intros (c' & u' & [= <-] & [= <-] & Hle).
  - split; [done|]. by intros (? & ? & _ & ? & _).
  - split; [done|]. by intros (? & ? & ? & _).
  - split; [done|]. by intros (? & ? & ? & _).
Qed.

(** C5. With the [newOnly] flag off every item is relevant; with the flag
    on an item is relevant exactly when both timestamps parse and lie at
    most 2000 ms apart, so at a distance of exactly 2000 ms it is relevant
    and from 2001 ms on it is not. *)
Theorem isEventRelevant_threshold (h : host) (ids : list string)
    (item : calendar_event) :
  isEventRelevant h {| calendarIds := ids; newOnly := false |} item = true ∧
  (isEventRelevant h {| calendarIds := ids; newOnly := true |} item = true ↔
   ∃ created updated : Z,
     Date_parse h (ev_created item) = Some created ∧
     Date_parse h (ev_updated item) = Some updated ∧
     Z.abs (updated - created) <= 2000) ∧
  (∀ created updated : Z,
     Date_parse h (ev_created item) = Some created →
     Date_parse h (ev_updated item) = Some updated →
     (Z.abs (updated - created) = 2000 →
      isEventRelevant h {| calendarIds := ids; newOnly := true |} item = true) ∧
     (2001 <= Z.abs (updated - created) →
      isEventRelevant h {| calendarIds := ids; newOnly := true |} item = false)).
Proof.
  split; [done|]. split.
  - unfold isEventRelevant; simpl. apply _isNewEvent_spec.
  - intros c u Hc Hu. unfold isEventRelevant, _isNewEvent; simpl.
    rewrite Hc, Hu; simpl. split; intros Hd.
    + apply bool_decide_eq_true. lia.
    + apply bool_decide_eq_false. lia.
Qed.

Lemma isEventRelevant_threshold_witness :
  isEventRelevant (feed_host []) (one_calendar true) ev_at_2000 = true ∧
  isEventRelevant (feed_host []) (one_calendar true) ev_at_2001 = false.
Proof.
  split.
  - apply (proj1 (proj2 (proj2
      (isEventRelevant_threshold (feed_host []) ["cal"] ev_at_2000))
      1682942400000 1682942402000 eq_refl eq_refl)).
    reflexivity.
  - apply (proj2 (proj2 (proj2
      (isEventRelevant_threshold (feed_host []) ["cal"] ev_at_2001))
      1682942400000 1682942402001 eq_refl eq_refl)).
    vm_compute. discriminate.
Defined.

(** C6. The dedupe id is a function of the item's id and [updated]
    field, and two items with the same id whose [updated] fields parse to
    different timestamps get different dedupe ids. *)
Theorem generateMeta_dedupe_id (h : host) (e1 e2 : calendar_event) :
  (ev_id e1 = ev_id e2 → ev_updated e1 = ev_updated e2 →
   meta_id (generateMeta h e1) = meta_id (generateMeta h e2)) ∧
  (ev_id e1 = ev_id e2 →
   Date_parse h (ev_updated e1) ≠ Date_parse h (ev_updated e2) →
   meta_id (generateMeta h e1) ≠ meta_id (generateMeta h e2)).
Proof.
  unfold generateMeta; simpl. split.
  - by intros -> ->.
  - intros -> Hts Heq. apply Hts.
    apply (inj (String.append _)) in Heq.
    apply (inj (String.append _)) in Heq.
    by apply Number_toString_inj.
Qed.

Lemma generateMeta_dedupe_id_witness :
  meta_id (generateMeta (feed_host []) ev_at_2000)
  = meta_id (generateMeta (feed_host []) ev_at_2000) ∧
  meta_id (generateMeta (feed_host []) ev_at_2000)
  ≠ meta_id (generateMeta (feed_host []) ev_at_2001).
Proof.
  split.
  - apply (proj1 (generateMeta_dedupe_id (feed_host []) ev_at_2000 ev_at_2000));
      reflexivity.
  - apply (proj2 (generateMeta_dedupe_id (feed_host []) ev_at_2000 ev_at_2001)).
    + reflexivity.
    + vm_compute. discriminate.
Defined.

(** ** Notification filter (C3, C8) *)

Lemma collect_channelIds_spec (ids : list string) (acc : list jsval) (w : world) :
  collect_channelIds ids acc w
  = (Done (acc ++ ((λ c, db_lookup (db w) (c +:+ ".channelId")) <$> ids)), w).
Proof.
  revert acc. induction ids as [|c ids IH]; intros acc; simpl.
  - by rewrite app_nil_r.
  - unfold bind, db_get. rewrite IH. by rewrite <- app_assoc.
Qed.

(** A notification whose channel-id header is not among the values read
    from the store for the configured calendars (a key never written reads
    as [undefined], and so does a missing header) only writes one log line:
    the invocation returns normally, the store and the RPC counters are
    untouched, no RPC is called and nothing is emitted. *)
Theorem run_unknown_channel (h : host) (this : component) (fuel : nat)
    (event : trigger) (w : world) :
  is_tick event = None →
  header event "x-goog-channel-id" ∉ persisted_channelIds this w →
  run h this fuel event w
  = (Done tt,
     record (Log ("Unexpected channel ID "
                  +:+ ToString (header event "x-goog-channel-id")
                  +:+ ". This likely means there are multiple, older subscriptions active."))
            w).
Proof.
  intros Htick Hnot. unfold run. rewrite Htick.
  erewrite bind_Done by apply collect_channelIds_spec.
  rewrite app_nil_l. fold (persisted_channelIds this w).
  by rewrite bool_decide_eq_false_2.
Qed.

Lemma run_unknown_channel_witness :
  let w := world0 watched_store in
  let r := run (feed_host invalidated_feed) (one_calendar false) 5
             (notification "stale-ch" "exists") w in
  r.1 = Done tt ∧ db r.2 = db w ∧ n_list r.2 = n_list w ∧
  Forall (λ e, is_network_call e = false ∧ is_emit e = false)
         (drop (length (trace w)) (trace r.2)).
Proof.
  intros w r. unfold r.
  rewrite (run_unknown_channel (feed_host invalidated_feed) (one_calendar false) 5
             (notification "stale-ch" "exists") w).
  - repeat split. simpl. by repeat constructor.
  - reflexivity.
  - vm_compute. intros Hin. by repeat (apply elem_of_cons in Hin as [Hin|Hin];
      [discriminate|]); apply elem_of_nil in Hin.
Defined.

(** C3. A notification without a channel-id header, received while no
    configured calendar has a channel id in the store, is not stopped by the
    channel check: the missing header and the missing keys both read as
    [undefined], [includes] finds one in the other, and with resource state
    ["exists"] the invocation lists both calendars and emits their events. *)
Theorem headerless_notification_fetches :
  let h := feed_host two_feed in
  let event := headerless_notification "exists" in
  let w := world0 watched_store in
  let r := run h two_calendars 5 event w in
  header event "x-goog-channel-id" = JUndef ∧
  (∀ c, c ∈ calendarIds two_calendars → db w !! (c +:+ ".channelId") = None) ∧
  r.1 = Done tt ∧
  trace r.2
  = [ CallList "work" JUndef JNull;
      Emit ev_a (generateMeta h ev_a);
      CallList "work" JUndef (JStr "p2");
      Emit ev_b (generateMeta h ev_b);
      DbSet "work.nextSyncToken" (JStr "work-1");
      CallList "home" JUndef JNull;
      Emit ev_d (generateMeta h ev_d);
      DbSet "home.nextSyncToken" (JStr "home-1") ].
Proof.
  intros h event w r. split; [reflexivity|]. split.
  - intros c Hc.
    repeat (apply elem_of_cons in Hc as [-> | Hc]; [vm_compute; reflexivity|]).
    by apply elem_of_nil in Hc.
  - split; vm_compute; reflexivity.
Qed.

(** On a known channel, [run] is the [switch] on the resource state. *)
Lemma run_known_channel (h : host) (this : component) (fuel : nat)
    (event : trigger) (w : world) :
  is_tick event = None →
  header event "x-goog-channel-id" ∈ persisted_channelIds this w →
  run h this fuel event w
  = (let state := header event "x-goog-resource-state" in
     if bool_decide (state = JStr "exists") then fetch_and_emit h this fuel
     else if bool_decide (state = JStr "not_exists")
          then console_log "Resource does not exist. Exiting."
     else if bool_decide (state = JStr "sync") then console_log "New channel created"
     else console_log ("Unknown state: " +:+ ToString state)) w.
Proof.
  intros Htick Hin. unfold run. rewrite Htick.
  erewrite bind_Done by apply collect_channelIds_spec.
  rewrite app_nil_l. fold (persisted_channelIds this w).
  by rewrite bool_decide_eq_true_2.
Qed.

(** C8. A notification on a known channel goes on to the delta fetch when
    its resource state is exactly ["exists"]; for any other value
    (["not_exists"], ["sync"], anything else, a missing header) the
    invocation returns after one log line, with no RPC and no emission. *)
Theorem run_resource_state (h : host) (this : component) (fuel : nat)
    (event : trigger) (w : world) :
  is_tick event = None →
  header event "x-goog-channel-id" ∈ persisted_channelIds this w →
  let state := header event "x-goog-resource-state" in
  (state = JStr "exists" →
   run h this fuel event w = fetch_and_emit h this fuel w) ∧
  (state = JStr "not_exists" →
   run h this fuel event w
   = (Done tt, record (Log "Resource does not exist. Exiting.") w)) ∧
  (state = JStr "sync" →
   run h this fuel event w = (Done tt, record (Log "New channel created") w)) ∧
  (state ≠ JStr "exists" → state ≠ JStr "not_exists" → state ≠ JStr "sync" →
   run h this fuel event w
   = (Done tt, record (Log ("Unknown state: " +:+ ToString state)) w)).
Proof.
  intros Htick Hin state.
  pose proof (run_known_channel h this fuel event w Htick Hin) as Hrun.
  simpl in Hrun. fold state in Hrun.
  rewrite Hrun. repeat split.
  - intros ->. done.
  - intros ->. done.
  - intros ->. done.
  - intros H1 H2 H3. by rewrite !bool_decide_eq_false_2.
Qed.

Lemma run_resource_state_witness :
  let w := world0 watched_store in
  run (feed_host invalidated_feed) (one_calendar false) 5
      (notification "old-ch" "sync") w
  = (Done tt, record (Log "New channel created") w) ∧
  run (feed_host invalidated_feed) (one_calendar false) 5
      (notification "old-ch" "exists") w
  = fetch_and_emit (feed_host invalidated_feed) (one_calendar false) 5 w.
Proof.
  intros w.
  assert (Hin : header (notification "old-ch" "exists") "x-goog-channel-id"
                ∈ persisted_channelIds (one_calendar false) w).
  { vm_compute. apply list_elem_of_here. }
  split.
  - apply (proj1 (proj2 (proj2
      (run_resource_state (feed_host invalidated_feed) (one_calendar false) 5
         (notification "old-ch" "sync") w eq_refl Hin)))).
    reflexivity.
  - apply (proj1
      (run_resource_state (feed_host invalidated_feed) (one_calendar false) 5
         (notification "old-ch" "exists") w eq_refl Hin)).
    reflexivity.
Defined.

(** ** Teardown (C7) *)

Lemma lookup_clear_fields (store : gmap string jsval) (c key : string) :
  (<[c +:+ ".expiration" := JNull]>
     (<[c +:+ ".resourceId" := JNull]>
        (<[c +:+ ".channelId" := JNull]>
           (<[c +:+ ".nextSyncToken" := JNull]> store)))) !! key
  = if bool_decide (key ∈ (String.append c <$> calendar_fields))
    then Some JNull else store !! key.
Proof.
  unfold calendar_fields. simpl. case_bool_decide as Hk.
  - rewrite !lookup_insert. repeat case_decide; try done.
    exfalso. repeat (apply elem_of_cons in Hk as [->|Hk]; [done|]).
    by apply elem_of_nil in Hk.
  - rewrite !lookup_insert_ne; [done|..]; intros <-; apply Hk;
      repeat first [apply list_elem_of_here | apply list_elem_of_further].
Qed.

(** The teardown of one calendar with a persisted channel, spelled out. *)
Lemma stopWatchRequest_body_call (h : host) (calendarId : string)
    (w : world) (id resourceId : jsval) (status : Z) :
  db_lookup (db w) (calendarId +:+ ".channelId") = id →
  db_lookup (db w) (calendarId +:+ ".resourceId") = resourceId →
  truthy id = true → truthy resourceId = true →
  stop_resp h (n_stop w) = Some status →
  stopWatchRequest_body h calendarId w
  = if bool_decide (status = 204)
    then (Done tt,
          record (DbSet (calendarId +:+ ".expiration") JNull)
            (with_db (insert (calendarId +:+ ".expiration") JNull)
          (record (DbSet (calendarId +:+ ".resourceId") JNull)
            (with_db (insert (calendarId +:+ ".resourceId") JNull)
          (record (DbSet (calendarId +:+ ".channelId") JNull)
            (with_db (insert (calendarId +:+ ".channelId") JNull)
          (record (DbSet (calendarId +:+ ".nextSyncToken") JNull)
            (with_db (insert (calendarId +:+ ".nextSyncToken") JNull)
          (record (Log "webhook deactivated")
            (tick_stop (record (CallStop id resourceId) w)))))))))))
    else (Done tt,
          record (Log "There was a problem deactivating the webhook")
            (tick_stop (record (CallStop id resourceId) w))).
Proof.
  intros Hid Hrid Tid Trid Hresp.
  unfold stopWatchRequest_body, bind, db_get, googleCalendar_stop.
  rewrite Hid, Hrid, Tid, Trid. simpl. rewrite Hresp. simpl.
  by case_bool_decide.
Qed.

(** C7. Teardown of one calendar whose channel id and resource id are
    persisted calls the stop RPC with them and returns normally whatever the
    status; the four persisted fields are cleared (set to [null], all other
    keys untouched) when the status is 204, the store is left as it was for
    every other status, and so the fields are cleared if and only if the
    status is 204. *)
Theorem stopWatchRequest_clears_iff_204 (h : host) (calendarId : string)
    (w : world) (id resourceId : jsval) (status : Z) :
  db_lookup (db w) (calendarId +:+ ".channelId") = id →
  db_lookup (db w) (calendarId +:+ ".resourceId") = resourceId →
  truthy id = true → truthy resourceId = true →
  stop_resp h (n_stop w) = Some status →
  let r := stopWatchRequest_body h calendarId w in
  r.1 = Done tt ∧
  (∃ new, continues w r.2 (CallStop id resourceId :: new)) ∧
  (status = 204 →
   (∀ f, f ∈ calendar_fields → db r.2 !! (calendarId +:+ f) = Some JNull) ∧
   (∀ key, (∀ f, f ∈ calendar_fields → key ≠ calendarId +:+ f) →
           db r.2 !! key = db w !! key)) ∧
  (status ≠ 204 → db r.2 = db w) ∧
  ((∀ f, f ∈ calendar_fields → db r.2 !! (calendarId +:+ f) = Some JNull)
   ↔ status = 204).
Proof.
  intros Hid Hrid Tid Trid Hresp r.
  pose proof (stopWatchRequest_body_call h calendarId w id resourceId status
                Hid Hrid Tid Trid Hresp) as Hr.
  fold r in Hr.
  assert (H204 : status = 204 →
    ∀ key, db r.2 !! key
           = if bool_decide (key ∈ (String.append calendarId <$> calendar_fields))
             then Some JNull else db w !! key).
  { intros H key. rewrite Hr, bool_decide_eq_true_2 by done.
    apply lookup_clear_fields. }
  assert (Hne : status ≠ 204 → db r.2 = db w).
  { intros H. by rewrite Hr, bool_decide_eq_false_2. }
  split; [rewrite Hr; by case_bool_decide|].
  split.
  { rewrite Hr. case_bool_decide; eexists; unfold continues; simpl;
      rewrite <- ?app_assoc; simpl; reflexivity. }
  split; [|split; [done|split]].
  - intros H. split.
    + intros f Hf. rewrite (H204 H). rewrite bool_decide_eq_true_2; [done|].
      by apply list_elem_of_fmap_2.
    + intros key Hkey. rewrite (H204 H). rewrite bool_decide_eq_false_2; [done|].
      intros (f & -> & Hf)%list_elem_of_fmap. by apply (Hkey f).
  - intros Hcl. destruct (decide (status = 204)) as [|Hs]; [done|exfalso].
    specialize (Hcl ".channelId"). rewrite (Hne Hs) in Hcl.
    unfold db_lookup in Hid. rewrite Hcl in Hid.
    + simpl in Hid. subst id. done.
    + apply list_elem_of_further, list_elem_of_here.
  - intros H f Hf. rewrite (H204 H). rewrite bool_decide_eq_true_2; [done|].
    by apply list_elem_of_fmap_2.
Qed.

Lemma stopWatchRequest_clears_iff_204_witness :
  let w := world0 watched_store in
  db (stopWatchRequest_body (renewal_host 0 204) "cal" w).2 !! "cal.channelId"
  = Some JNull ∧
  db (stopWatchRequest_body (renewal_host 0 500) "cal" w).2 = db w.
Proof.
  intros w. split.
  - apply (proj1 (proj1 (proj2 (proj2
      (stopWatchRequest_clears_iff_204 (renewal_host 0 204) "cal" w
         (JStr "old-ch") (JStr "old-res") 204
         eq_refl eq_refl eq_refl eq_refl eq_refl))) eq_refl) ".channelId").
    unfold calendar_fields. apply list_elem_of_further, list_elem_of_here.
  - apply (proj1 (proj2 (proj2 (proj2
      (stopWatchRequest_clears_iff_204 (renewal_host 0 500) "cal" w
         (JStr "old-ch") (JStr "old-res") 500
         eq_refl eq_refl eq_refl eq_refl eq_refl))))).
    discriminate.
Defined.

(** ** What an invocation adds to the trace *)

Section Appends.
Context (h : host) (this : component) (P : io_event → Prop).

Lemma appends_ret {A} (a : A) : appends P (ret a).
Proof. intros w. exists []. split; [|done]. unfold continues; simpl. by rewrite app_nil_r. Qed.

Lemma appends_bind {A B} (c : M A) (k : A → M B) :
  appends P c → (∀ a, appends P (k a)) → appends P (bind c k).
Proof.
  intros Hc Hk w. unfold bind.
  destruct (Hc w) as (n1 & H1 & F1).
  destruct (c w) as [[a| |] w1]; simpl in *; [|by exists n1..].
  destruct (Hk a w1) as (n2 & H2 & F2).
  exists (n1 ++ n2). split; [|by apply Forall_app].
  unfold continues in *. by rewrite H2, H1, app_assoc.
Qed.

Lemma appends_for_of {A} (l : list A) (body : A → M unit) :
  (∀ x, appends P (body x)) → appends P (for_of l body).
Proof.
  intros Hbody. induction l as [|x l IH]; simpl.
  - apply appends_ret.
  - apply appends_bind; [apply Hbody|]. by intros _.
Qed.

Lemma appends_one {A} (c : M A) (e : io_event) :
  P e → (∀ w, trace (c w).2 = trace w ++ [e]) → appends P c.
Proof.
  intros He Hc w. exists [e]. split; [apply Hc|]. by constructor.
Qed.

Lemma appends_db_get (key : string) : appends P (db_get key).
Proof. intros w. exists []. split; [|done]. unfold continues; simpl. by rewrite app_nil_r. Qed.

Lemma appends_new_uuid : appends P (new_uuid h).
Proof. intros w. exists []. split; [|done]. unfold continues; simpl. by rewrite app_nil_r. Qed.

Lemma appends_collect_channelIds (ids : list string) (acc : list jsval) :
  appends P (collect_channelIds ids acc).
Proof.
  intros w. rewrite collect_channelIds_spec. exists []. split; [|done].
  unfold continues; simpl. by rewrite app_nil_r.
Qed.

(** Everything except an emission is allowed, and so is the emission of
    an event that is not cancelled, under the metadata the component
    generates for it. *)
Hypothesis P_other : ∀ e, is_emit e = false → P e.
Hypothesis P_emit : ∀ ev,
  ev_status ev ≠ JStr "cancelled" → P (Emit ev (generateMeta h ev)).

Lemma appends_db_set (key : string) (v : jsval) : appends P (db_set key v).
Proof. by apply (appends_one _ (DbSet key v)); [apply P_other|]. Qed.

Lemma appends_console_log (msg : string) : appends P (console_log msg).
Proof. by apply (appends_one _ (Log msg)); [apply P_other|]. Qed.

Lemma appends_watch (c : string) (id a : jsval) :
  appends P (googleCalendar_watch h c id a).
Proof. by apply (appends_one _ (CallWatch c id a)); [apply P_other|]. Qed.

Lemma appends_fullSync (c : jsval) : appends P (googleCalendar_fullSync h c).
Proof. by apply (appends_one _ (CallFullSync c)); [apply P_other|]. Qed.

Lemma appends_stop (id r : jsval) : appends P (googleCalendar_stop h id r).
Proof. by apply (appends_one _ (CallStop id r)); [apply P_other|]. Qed.

Lemma appends_list (c : string) (t p : jsval) :
  appends P (googleCalendar_list h c t p).
Proof. by apply (appends_one _ (CallList c t p)); [apply P_other|]. Qed.

Lemma appends_emit_event (ev : calendar_event) : appends P (emit_event h ev).
Proof.
  unfold emit_event. case_bool_decide as Hc.
  - apply appends_console_log.
  - by apply (appends_one _ (Emit ev (generateMeta h ev))); [apply P_emit|].
Qed.

Lemma appends_emit_page (evs : list calendar_event) :
  appends P (emit_page h this evs).
Proof. apply appends_for_of, appends_emit_event. Qed.

Lemma appends_fetch_loop (fuel : nat) (c : string) (tok nst npt : jsval) :
  appends P (fetch_loop h this fuel c tok nst npt).
Proof.
  revert nst npt. induction fuel as [|fuel IH]; intros nst npt; simpl.
  - destruct (truthy nst); [apply appends_ret|].
    intros w. exists []. split; [|done]. unfold continues; simpl. by rewrite app_nil_r.
  - destruct (truthy nst); [apply appends_ret|].
    apply appends_bind; [apply appends_list|]. intros resp.
    case_bool_decide.
    + apply appends_bind; [apply appends_console_log|].
      intros _. apply appends_fullSync.
    + apply appends_bind; [apply appends_emit_page|]. intros _. apply IH.
Qed.

Lemma appends_fetch_calendar (fuel : nat) (c : string) :
  appends P (fetch_calendar h this fuel c).
Proof.
  unfold fetch_calendar.
  apply appends_bind; [apply appends_db_get|]. intros tok.
  apply appends_bind; [apply appends_fetch_loop|]. intros nst.
  apply appends_db_set.
Qed.

Lemma appends_fetch_and_emit (fuel : nat) : appends P (fetch_and_emit h this fuel).
Proof. apply appends_for_of, appends_fetch_calendar. Qed.

Lemma appends_makeWatchRequest : appends P (makeWatchRequest h this).
Proof.
  apply appends_for_of. intros c. unfold makeWatchRequest_body.
  repeat first
    [ apply appends_db_set | apply appends_new_uuid | apply appends_watch
    | apply appends_fullSync | apply appends_bind | intros ? ].
Qed.

Lemma appends_stopWatchRequest : appends P (stopWatchRequest h this).
Proof.
  apply appends_for_of. intros c. unfold stopWatchRequest_body.
  apply appends_bind; [apply appends_db_get|]. intros id.
  apply appends_bind; [apply appends_db_get|]. intros rid.
  destruct (truthy id && truthy rid); [|apply appends_ret].
  apply appends_bind; [apply appends_stop|]. intros st.
  case_bool_decide; [|apply appends_console_log].
  repeat first
    [ apply appends_db_set | apply appends_console_log | apply appends_bind
    | intros ? ].
Qed.

Lemma appends_run (fuel : nat) (event : trigger) :
  appends P (run h this fuel event).
Proof.
  unfold run. destruct (is_tick event) as [secs|].
  - apply appends_bind; [apply appends_db_get|]. intros e.
    destruct (number_gt _ _); [|apply appends_ret].
    apply appends_bind; [apply appends_makeWatchRequest|].
    intros _. apply appends_stopWatchRequest.
  - apply appends_bind; [apply appends_collect_channelIds|]. intros ids.
    destruct (negb _); [apply appends_console_log|].
    repeat case_bool_decide;
      first [apply appends_fetch_and_emit | apply appends_console_log].
Qed.

End Appends.

(** ** Cancelled events (C4) *)

(** C4. A calendar event whose status is ["cancelled"] is never emitted,
    whatever the [newOnly] flag: the events one invocation of [run] adds to
    the trace contain no emission of a cancelled event, and a page that
    consists of one cancelled item leaves at most a log line. *)
Theorem cancelled_never_emitted (h : host) (this : component) :
  (∀ (fuel : nat) (event : trigger) (w : world),
     ∃ new, continues w (run h this fuel event w).2 new ∧
            ∀ ev m, Emit ev m ∈ new → ev_status ev ≠ JStr "cancelled") ∧
  (∀ (item : calendar_event) (w : world),
     ev_status item = JStr "cancelled" →
     emit_page h this [item] w
     = (Done tt, if isEventRelevant h this item
                 then record (Log "Event cancelled. Exiting.") w else w)).
Proof.
  split.
  - intros fuel event w.
    destruct (appends_run h this not_cancelled_emit) with (fuel := fuel)
      (event := event) (w := w) as (new & Hnew & Hall).
    + by intros [].
    + intros ev Hev. exact Hev.
    + exists new. split; [done|]. intros ev m Hin.
      rewrite Forall_forall in Hall. exact (Hall _ Hin).
  - intros item w Hst. unfold emit_page. simpl.
    destruct (isEventRelevant h this item); simpl; [|done].
    unfold bind, emit_event. by rewrite Hst.
Qed.

(** A cancelled event that was created and updated within half a second,
    and so is relevant under either value of the flag. *)
Lemma cancelled_never_emitted_witness :
  emit_page (feed_host []) (one_calendar true) [ev_c] (world0 watched_store)
  = (Done tt, record (Log "Event cancelled. Exiting.") (world0 watched_store)) ∧
  emit_page (feed_host []) (one_calendar false) [ev_c] (world0 watched_store)
  = (Done tt, record (Log "Event cancelled. Exiting.") (world0 watched_store)).
Proof.
  split.
  - exact (proj2 (cancelled_never_emitted (feed_host []) (one_calendar true))
             ev_c (world0 watched_store) eq_refl).
  - exact (proj2 (cancelled_never_emitted (feed_host []) (one_calendar false))
             ev_c (world0 watched_store) eq_refl).
Defined.

(** ** The pagination loop, step by step *)

Section Pagination.
Context (h : host) (this : component).

Lemma record_all_nil (w : world) : record_all [] w = w.
Proof. destruct w. unfold record_all; simpl. by rewrite app_nil_r. Qed.

Lemma record_all_cons (e : io_event) (es : list io_event) (w : world) :
  record_all es (record e w) = record_all (e :: es) w.
Proof. unfold record_all, record; simpl. by rewrite <- app_assoc. Qed.

Lemma for_of_emit_event (evs : list calendar_event) (w : world) :
  for_of evs (emit_event h) w
  = (Done tt,
     record_all ((λ ev, if bool_decide (ev_status ev = JStr "cancelled")
                        then Log "Event cancelled. Exiting."
                        else Emit ev (generateMeta h ev)) <$> evs) w).
Proof.
  revert w. induction evs as [|ev evs IH]; intros w; simpl.
  - by rewrite record_all_nil.
  - unfold bind, emit_event at 1.
    case_bool_decide; simpl; rewrite IH, record_all_cons; done.
Qed.

Lemma emit_page_spec (evs : list calendar_event) (w : world) :
  emit_page h this evs w = (Done tt, record_all (page_effects h this evs) w).
Proof. apply for_of_emit_event. Qed.

Lemma fetch_loop_truthy (fuel : nat) (c : string) (tok nst npt : jsval) (w : world) :
  truthy nst = true → fetch_loop h this fuel c tok nst npt w = (Done nst, w).
Proof. intros Ht. destruct fuel; simpl; by rewrite Ht. Qed.

Lemma fetch_loop_exhausted (c : string) (tok nst npt : jsval) (w : world) :
  truthy nst = false → fetch_loop h this 0 c tok nst npt w = (OutOfFuel, w).
Proof. intros Ht. simpl. by rewrite Ht. Qed.

Lemma fetch_loop_step_throw (fuel : nat) (c : string) (tok nst npt : jsval)
    (w : world) :
  truthy nst = false → list_resp h (n_list w) = None →
  fetch_loop h this (S fuel) c tok nst npt w
  = (Thrown, tick_list (record (CallList c tok npt) w)).
Proof.
  intros Ht Hr. simpl. rewrite Ht. unfold bind, googleCalendar_list.
  by rewrite Hr.
Qed.

Lemma fetch_loop_step_410 (fuel : nat) (c : string) (tok nst npt : jsval)
    (w : world) (r : list_response) :
  truthy nst = false → list_resp h (n_list w) = Some r → lr_status r = 410 →
  fetch_loop h this (S fuel) c tok nst npt w
  = (settle (fullSync_resp h (n_fullSync w)),
     tick_fullSync (record (CallFullSync JUndef)
       (record (Log "Sync token invalid, resyncing")
          (tick_list (record (CallList c tok npt) w))))).
Proof.
  intros Ht Hr Hs. simpl. rewrite Ht. unfold bind, googleCalendar_list.
  rewrite Hr; simpl. by rewrite bool_decide_eq_true_2.
Qed.

Lemma fetch_loop_step_page (fuel : nat) (c : string) (tok nst npt : jsval)
    (w : world) (r : list_response) :
  truthy nst = false → list_resp h (n_list w) = Some r → lr_status r ≠ 410 →
  let d := default empty_data (lr_data r) in
  fetch_loop h this (S fuel) c tok nst npt w
  = fetch_loop h this fuel c tok (ld_nextSyncToken d) (ld_nextPageToken d)
      (record_all (page_effects h this (ld_items d))
         (tick_list (record (CallList c tok npt) w))).
Proof.
  intros Ht Hr Hs d. simpl. rewrite Ht. unfold bind at 1, googleCalendar_list.
  rewrite Hr; simpl. rewrite bool_decide_eq_false_2 by done.
  unfold bind. by rewrite emit_page_spec.
Qed.

(** Once a response that ends the pagination lies [k] requests ahead,
    any fuel above [k] is enough. *)
Lemma fetch_loop_enough_fuel (k : nat) :
  ∀ (w : world) (c : string) (tok nst npt : jsval) (r : list_response),
    list_resp h (n_list w + k) = Some r → ends_pagination r = true →
    ∀ fuel, (k < fuel)%nat →
      (fetch_loop h this fuel c tok nst npt w).1 ≠ OutOfFuel.
Proof.
  induction k as [|k IH]; intros w c tok nst npt r Hr Hend fuel Hfuel;
    (destruct fuel as [|fuel]; [lia|]);
    (destruct (truthy nst) eqn:Ht; [by rewrite fetch_loop_truthy|]).
  - rewrite Nat.add_0_r in Hr.
    destruct (decide (lr_status r = 410)) as [H410|H410].
    + rewrite (fetch_loop_step_410 _ _ _ _ _ _ r) by done. simpl.
      by destruct (fullSync_resp h (n_fullSync w)).
    + rewrite (fetch_loop_step_page _ _ _ _ _ _ r) by done.
      rewrite fetch_loop_truthy; [done|].
      unfold ends_pagination in Hend.
      by rewrite bool_decide_eq_false_2 in Hend.
  - destruct (list_resp h (n_list w)) as [r0|] eqn:Hr0;
      [|by rewrite fetch_loop_step_throw].
    destruct (decide (lr_status r0 = 410)) as [H410|H410].
    + rewrite (fetch_loop_step_410 _ _ _ _ _ _ r0) by done. simpl.
      by destruct (fullSync_resp h (n_fullSync w)).
    + rewrite (fetch_loop_step_page _ _ _ _ _ _ r0) by done.
      apply (IH _ _ _ _ _ r); [|done|lia].
      simpl. by rewrite <- Nat.add_succ_r.
Qed.

End Pagination.

(** ** Termination of the pagination loop (C10) *)

Lemma fetch_loop_first_call (h : host) (this : component) (fuel : nat)
    (c : string) (tok nst npt : jsval) (w : world) :
  truthy nst = false →
  ∃ new, continues w (fetch_loop h this (S fuel) c tok nst npt w).2
           (CallList c tok npt :: new).
Proof.
  intros Ht. destruct (list_resp h (n_list w)) as [r|] eqn:Hr.
  - destruct (decide (lr_status r = 410)) as [H410|H410].
    + rewrite (fetch_loop_step_410 _ _ _ _ _ _ _ _ r) by done.
      eexists. unfold continues; simpl. rewrite <- !app_assoc. reflexivity.
    + rewrite (fetch_loop_step_page _ _ _ _ _ _ _ _ r) by done.
      edestruct (appends_fetch_loop h this (λ _, True)) as (new & Hnew & _);
        [done..|].
      eexists. unfold continues in *. rewrite Hnew. simpl.
      rewrite <- !app_assoc. reflexivity.
  - rewrite fetch_loop_step_throw by done.
    exists []. reflexivity.
Qed.

(** C10. The pagination loop of one calendar terminates as soon as the
    sequence of [list] responses, from the loop's first request on,
    contains a response with status 410 or with a truthy [nextSyncToken]:
    every fuel above the position of that response is enough.  A response
    that has neither (whether or not it has a [nextPageToken]) does not end
    the loop: its events are processed and a further [list] request is
    issued, carrying the response's [nextPageToken]. *)
Theorem fetch_loop_terminates (h : host) (this : component) (c : string)
    (tok npt : jsval) (w : world) :
  ((∃ k r, list_resp h (n_list w + k)%nat = Some r ∧ ends_pagination r = true) →
   ∃ fuel0, ∀ fuel, (fuel0 ≤ fuel)%nat →
     (fetch_loop h this fuel c tok JNull npt w).1 ≠ OutOfFuel) ∧
  (∀ r, list_resp h (n_list w) = Some r → ends_pagination r = false →
     let d := default empty_data (lr_data r) in
     (fetch_loop h this 1 c tok JNull npt w).1 = OutOfFuel ∧
     ∀ fuel, ∃ new,
       continues w (fetch_loop h this (S (S fuel)) c tok JNull npt w).2
         (CallList c tok npt :: page_effects h this (ld_items d)
          ++ CallList c tok (ld_nextPageToken d) :: new)).
Proof.
  split.
  - intros (k & r & Hr & Hend). exists (S k). intros fuel Hfuel.
    apply (fetch_loop_enough_fuel h this k w c tok JNull npt r); [done..|lia].
  - intros r Hr Hend d. unfold ends_pagination in Hend.
    apply orb_false_iff in Hend as [H410 Hnst].
    apply bool_decide_eq_false in H410. fold d in Hnst.
    split.
    + rewrite (fetch_loop_step_page _ _ _ _ _ _ _ _ r) by done.
      by rewrite fetch_loop_exhausted.
    + intros fuel.
      rewrite (fetch_loop_step_page _ _ _ _ _ _ _ _ r) by done. fold d.
      destruct (fetch_loop_first_call h this fuel c tok (ld_nextSyncToken d)
                  (ld_nextPageToken d)
                  (record_all (page_effects h this (ld_items d))
                     (tick_list (record (CallList c tok npt) w))) Hnst)
        as (new & Hnew).
      exists new. unfold continues in *. rewrite Hnew. simpl.
      by rewrite <- !app_assoc.
Qed.

(** A feed that never ends the pagination keeps the loop going for any
    amount of fuel. *)
Lemma fetch_loop_diverges (h : host) (this : component) (c : string) (tok : jsval) :
  (∀ n, ∃ r, list_resp h n = Some r ∧ ends_pagination r = false) →
  ∀ fuel nst npt w,
    truthy nst = false → (fetch_loop h this fuel c tok nst npt w).1 = OutOfFuel.
Proof.
  intros Hall. induction fuel as [|fuel IH]; intros nst npt w Ht.
  - by rewrite fetch_loop_exhausted.
  - destruct (Hall (n_list w)) as (r & Hr & Hend).
    unfold ends_pagination in Hend.
    apply orb_false_iff in Hend as [H410 Hnst].
    apply bool_decide_eq_false in H410.
    rewrite (fetch_loop_step_page _ _ _ _ _ _ _ _ r) by done.
    by apply IH.
Qed.

Lemma fetch_loop_terminates_witness :
  let w := world0 watched_store in
  (∃ fuel0, ∀ fuel, (fuel0 ≤ fuel)%nat →
     (fetch_loop (feed_host invalidated_feed) (one_calendar false) fuel
        "cal" (JStr "tok0") JNull JNull w).1 ≠ OutOfFuel) ∧
  (fetch_loop (feed_host [page JUndef JUndef [ev_a]]) (one_calendar false) 1
     "cal" (JStr "tok0") JNull JNull w).1 = OutOfFuel.
Proof.
  intros w. split.
  - apply (proj1 (fetch_loop_terminates (feed_host invalidated_feed)
                    (one_calendar false) "cal" (JStr "tok0") JNull w)).
    exists 1%nat. eexists. split; reflexivity.
  - eapply (proj1 (proj2 (fetch_loop_terminates (feed_host [page JUndef JUndef [ev_a]])
                    (one_calendar false) "cal" (JStr "tok0") JNull w) _ eq_refl eq_refl)).
Defined.

(** ** The fetch loop over all calendars (C9) *)

Section Visits.
Context (h : host) (this : component).
Hypothesis h_responsive : responsive h.

Lemma fetch_loop_paginates (c : string) (tok : jsval) (k : nat) :
  ∀ (w : world) (nst npt : jsval) (r : list_response),
    truthy nst = false →
    list_resp h (n_list w + k) = Some r → ends_pagination r = true →
    ∃ v w1 seg,
      (∀ fuel, (k < fuel)%nat →
         fetch_loop h this fuel c tok nst npt w = (Done v, w1)) ∧
      db w1 = db w ∧ trace w1 = trace w ++ seg ∧
      paginates h this c tok (n_list w) (n_fullSync w) npt seg v
        (n_list w1) (n_fullSync w1).
Proof.
  destruct h_responsive as (Hlist & Hfull & _).
  assert (H410 : ∀ (k0 : nat) w nst npt r0,
    truthy nst = false → list_resp h (n_list w) = Some r0 →
    lr_status r0 = 410 →
    ∃ v w1 seg,
      (∀ fuel, (k0 < fuel)%nat →
         fetch_loop h this fuel c tok nst npt w = (Done v, w1)) ∧
      db w1 = db w ∧ trace w1 = trace w ++ seg ∧
      paginates h this c tok (n_list w) (n_fullSync w) npt seg v
        (n_list w1) (n_fullSync w1)).
  { intros k0 w nst npt r0 Ht Hr0 Hs.
    destruct (Hfull (n_fullSync w)) as [v Hv].
    exists v,
      (tick_fullSync (record (CallFullSync JUndef)
         (record (Log "Sync token invalid, resyncing")
            (tick_list (record (CallList c tok npt) w))))),
      [ CallList c tok npt; Log "Sync token invalid, resyncing";
        CallFullSync JUndef ].
    split; [|split; [|split]].
    - intros [|fuel] Hfuel; [lia|].
      rewrite (fetch_loop_step_410 _ _ _ _ _ _ _ _ r0) by done.
      by rewrite Hv.
    - reflexivity.
    - simpl. by rewrite <- !app_assoc.
    - by apply (paginates_invalidated h this c tok _ _ npt r0 v). }
  assert (Hfinal : ∀ (k0 : nat) w nst npt r0,
    truthy nst = false → list_resp h (n_list w) = Some r0 →
    lr_status r0 ≠ 410 →
    truthy (ld_nextSyncToken (response_data r0)) = true →
    ∃ v w1 seg,
      (∀ fuel, (k0 < fuel)%nat →
         fetch_loop h this fuel c tok nst npt w = (Done v, w1)) ∧
      db w1 = db w ∧ trace w1 = trace w ++ seg ∧
      paginates h this c tok (n_list w) (n_fullSync w) npt seg v
        (n_list w1) (n_fullSync w1)).
  { intros k0 w nst npt r0 Ht Hr0 Hs Htok.
    exists (ld_nextSyncToken (response_data r0)),
      (record_all (page_effects h this (ld_items (response_data r0)))
         (tick_list (record (CallList c tok npt) w))),
      (CallList c tok npt :: page_effects h this (ld_items (response_data r0))).
    split; [|split; [|split]].
    - intros [|fuel] Hfuel; [lia|].
      rewrite (fetch_loop_step_page _ _ _ _ _ _ _ _ r0) by done.
      by apply fetch_loop_truthy.
    - reflexivity.
    - simpl. by rewrite <- app_assoc.
    - by apply (paginates_final h this c tok _ _ npt r0). }
  induction k as [|k' IH]; intros w nst npt r Ht Hr Hend.
  - rewrite Nat.add_0_r in Hr.
    destruct (decide (lr_status r = 410)) as [Hs|Hs]; [by eapply H410|].
    unfold ends_pagination in Hend.
    rewrite bool_decide_eq_false_2 in Hend by done.
    by eapply Hfinal.
  - destruct (Hlist (n_list w)) as [r0 Hr0].
    destruct (decide (lr_status r0 = 410)) as [Hs|Hs]; [by eapply H410|].
    destruct (truthy (ld_nextSyncToken (response_data r0))) eqn:Htok;
      [by eapply Hfinal|].
    destruct (IH (record_all (page_effects h this (ld_items (response_data r0)))
                    (tick_list (record (CallList c tok npt) w)))
                 (ld_nextSyncToken (response_data r0))
                 (ld_nextPageToken (response_data r0)) r)
      as (v & w1 & seg & Hrun & Hdb & Htrace & Hpag); [done| |done|].
    { simpl. by rewrite <- Nat.add_succ_r. }
    exists v, w1,
      (CallList c tok npt
         :: page_effects h this (ld_items (response_data r0)) ++ seg).
    split; [|split; [|split]].
    + intros [|fuel] Hfuel; [lia|].
      rewrite (fetch_loop_step_page _ _ _ _ _ _ _ _ r0) by done.
      apply Hrun. lia.
    + by rewrite Hdb.
    + rewrite Htrace. simpl. by rewrite <- !app_assoc.
    + by apply (paginates_next h this c tok _ _ npt r0).
Qed.

Lemma fetch_calendar_paginates (c : string) (w : world) :
  ∃ fuel0 w1 seg v,
    (∀ fuel, (fuel0 ≤ fuel)%nat →
       fetch_calendar h this fuel c w = (Done tt, w1)) ∧
    db w1 = <[c +:+ ".nextSyncToken" := v]> (db w) ∧
    trace w1 = trace w ++ seg ++ [DbSet (c +:+ ".nextSyncToken") v] ∧
    paginates h this c (db_lookup (db w) (c +:+ ".nextSyncToken"))
      (n_list w) (n_fullSync w) JNull seg v (n_list w1) (n_fullSync w1).
Proof.
  destruct h_responsive as (_ & _ & Hends).
  destruct (Hends (n_list w)) as (k & r & Hr & Hend).
  destruct (fetch_loop_paginates c (db_lookup (db w) (c +:+ ".nextSyncToken"))
              k w JNull JNull r eq_refl Hr Hend)
    as (v & w1 & seg & Hrun & Hdb & Htrace & Hpag).
  exists (S k),
    (record (DbSet (c +:+ ".nextSyncToken") v)
       (with_db (insert (c +:+ ".nextSyncToken") v) w1)), seg, v.
  split; [|split; [|split]].
  - intros fuel Hfuel. unfold fetch_calendar, bind, db_get.
    rewrite Hrun by lia. reflexivity.
  - simpl. by rewrite Hdb.
  - simpl. by rewrite Htrace, <- app_assoc.
  - exact Hpag.
Qed.

Lemma for_of_fetch_calendar_paginates (ids : list string) :
  ∀ w, ∃ fuel0 w' new,
    (∀ fuel, (fuel0 ≤ fuel)%nat →
       for_of ids (fetch_calendar h this fuel) w = (Done tt, w')) ∧
    continues w w' new ∧
    visits_paginating h this ids (db w) (n_list w) (n_fullSync w) new (db w').
Proof.
  induction ids as [|c ids IH]; intros w.
  - exists 0%nat, w, []. split; [done|]. split; [|done].
    unfold continues. by rewrite app_nil_r.
  - destruct (fetch_calendar_paginates c w)
      as (f1 & w1 & seg & v & Hrun1 & Hdb1 & Htr1 & Hpag).
    destruct (IH w1) as (f2 & w' & new' & Hrun2 & Hc2 & Hvis).
    exists (f1 `max` f2)%nat, w',
      (seg ++ DbSet (c +:+ ".nextSyncToken") v :: new').
    split; [|split].
    + intros fuel Hfuel. simpl. unfold bind.
      rewrite Hrun1 by lia. apply Hrun2. lia.
    + unfold continues in *. rewrite Hc2, Htr1.
      by rewrite <- !app_assoc.
    + simpl. exists seg, v, (n_list w1), (n_fullSync w1), new'.
      split; [done|]. split; [done|]. by rewrite <- Hdb1.
Qed.

End Visits.

Lemma paginates_first_call (h : host) (this : component) (c : string)
    (tok npt : jsval) (n m : nat) (seg : list io_event) (v : jsval)
    (n' m' : nat) :
  paginates h this c tok n m npt seg v n' m' →
  ∃ rest, seg = CallList c tok npt :: rest.
Proof. destruct 1; by eexists. Qed.

Lemma visits_paginating_elem_of (h : host) (this : component)
    (ids : list string) :
  ∀ (store : gmap string jsval) (n m : nat) (new : list io_event)
    (store' : gmap string jsval) (c : string),
    visits_paginating h this ids store n m new store' → c ∈ ids →
    (∃ tok, CallList c tok JNull ∈ new) ∧
    (∃ v, DbSet (c +:+ ".nextSyncToken") v ∈ new).
Proof.
  induction ids as [|c0 ids IH]; intros store n m new store' c Hvis Hin.
  - by apply elem_of_nil in Hin.
  - destruct Hvis as (seg & v & n' & m' & new' & Hpag & -> & Hvis).
    apply elem_of_cons in Hin as [->|Hin].
    + destruct (paginates_first_call _ _ _ _ _ _ _ _ _ _ _ Hpag) as [rest ->].
      split.
      * eexists. apply list_elem_of_here.
      * exists v. apply elem_of_app. right. apply list_elem_of_here.
    + destruct (IH _ _ _ _ _ c Hvis Hin) as [[tok Htok] [v' Hv']]. split.
      * exists tok. apply elem_of_app. right. by apply list_elem_of_further.
      * exists v'. apply elem_of_app. right. by apply list_elem_of_further.
Qed.


Lemma feed_host_responsive (feed : list (option list_response)) :
  Forall is_Some feed → responsive (feed_host feed).
Proof.
  intros Hfeed. split; [|split].
  - intros n. simpl. destruct (feed !! n) as [o|] eqn:Hn; simpl; [|done].
    rewrite Forall_forall in Hfeed. apply Hfeed.
    by eapply list_elem_of_lookup_2.
  - intros n. simpl. done.
  - intros n. exists (length feed). eexists. split.
    + simpl. rewrite lookup_ge_None_2 by lia. reflexivity.
    + reflexivity.
Qed.



(** ** Renewal on a timer tick (C1) *)

Lemma run_tick (h : host) (this : component) (fuel : nat) (event : trigger)
    (w : world) (secs : Z) :
  is_tick event = Some secs →
  run h this fuel event w
  = (if number_gt (Some (clock h + secs * 1000))
          (Date_getTime (parseInt
             (db_lookup (db w) (first_calendarId this +:+ ".expiration"))))
     then bind (makeWatchRequest h this) (λ _, stopWatchRequest h this)
     else ret tt) w.
Proof. intros Htick. unfold run. by rewrite Htick. Qed.

(** The trigger of the renewal is as specified, on the first calendar's
    expiration [T]: nothing happens while [now + intervalMs <= T], and
    [makeWatchRequest] followed by [stopWatchRequest] runs once
    [now + intervalMs > T]. *)
Lemma run_tick_threshold (h : host) (this : component) (fuel : nat)
    (event : trigger) (w : world) (secs T : Z) :
  is_tick event = Some secs →
  Date_getTime (parseInt
    (db_lookup (db w) (first_calendarId this +:+ ".expiration"))) = Some T →
  (clock h + secs * 1000 <= T → run h this fuel event w = (Done tt, w)) ∧
  (clock h + secs * 1000 > T →
   run h this fuel event w
   = bind (makeWatchRequest h this) (λ _, stopWatchRequest h this) w).
Proof.
  intros Htick HT. rewrite (run_tick _ _ _ _ _ secs Htick), HT. simpl.
  split; intros Hcmp.
  - by rewrite bool_decide_eq_false_2 by lia.
  - by rewrite bool_decide_eq_true_2 by lia.
Qed.

(** What the renewal does for a single calendar: [stopWatchRequest] reads
    the channel from the store, where [makeWatchRequest] has just written the
    new one, so the stop RPC is called for the new channel and, when it
    answers 204, the calendar's four fields are cleared. *)
Lemma renewal_single_calendar (h : host) (this : component) (c : string)
    (w : world) (data : watch_data) (tok : jsval) :
  calendarIds this = [c] →
  watch_resp h (n_watch w) = Some data →
  fullSync_resp h (n_fullSync w) = Some tok →
  truthy (wd_id data) = true → truthy (wd_resourceId data) = true →
  stop_resp h (n_stop w) = Some 204 →
  let r := bind (makeWatchRequest h this) (λ _, stopWatchRequest h this) w in
  r.1 = Done tt ∧
  (∃ pre post, continues w r.2
     (pre ++ CallStop (wd_id data) (wd_resourceId data) :: post) ∧
     ∀ id rid, CallStop id rid ∈ pre ++ post → False) ∧
  (∀ f, f ∈ calendar_fields → db r.2 !! (c +:+ f) = Some JNull).
Proof.
  intros Hids Hwatch Hfull Tid Trid Hstop r.
  set (w1 :=
    record (DbSet (c +:+ ".expiration") (wd_expiration data))
      (with_db (insert (c +:+ ".expiration") (wd_expiration data))
    (record (DbSet (c +:+ ".resourceId") (wd_resourceId data))
      (with_db (insert (c +:+ ".resourceId") (wd_resourceId data))
    (record (DbSet (c +:+ ".channelId") (wd_id data))
      (with_db (insert (c +:+ ".channelId") (wd_id data))
    (record (DbSet (c +:+ ".nextSyncToken") tok)
      (with_db (insert (c +:+ ".nextSyncToken") tok)
    (tick_fullSync (record (CallFullSync (JStr c))
    (tick_watch (record (CallWatch c (JStr (uuid h (n_uuid w))) (endpoint h))
    (tick_uuid w))))))))))))).
  assert (Hmake : makeWatchRequest h this w = (Done tt, w1)).
  { unfold makeWatchRequest. rewrite Hids. simpl.
    unfold makeWatchRequest_body, bind, new_uuid, googleCalendar_watch,
      googleCalendar_fullSync. simpl. rewrite Hwatch. simpl.
    rewrite Hfull. reflexivity. }
  assert (Hstopw : stopWatchRequest h this w1
                   = bind (stopWatchRequest_body h c) (λ _, ret tt) w1).
  { unfold stopWatchRequest. by rewrite Hids. }
  assert (Hr : r = bind (stopWatchRequest_body h c) (λ _, ret tt) w1).
  { unfold r. rewrite (bind_Done _ _ _ _ _ Hmake). exact Hstopw. }
  rewrite Hr. unfold bind.
  rewrite (stopWatchRequest_body_call h c w1 (wd_id data) (wd_resourceId data) 204);
    [| | |done|done|done].
  - simpl. split; [done|]. split.
    + exists [ CallWatch c (JStr (uuid h (n_uuid w))) (endpoint h);
               CallFullSync (JStr c);
               DbSet (c +:+ ".nextSyncToken") tok;
               DbSet (c +:+ ".channelId") (wd_id data);
               DbSet (c +:+ ".resourceId") (wd_resourceId data);
               DbSet (c +:+ ".expiration") (wd_expiration data) ],
             [ Log "webhook deactivated";
               DbSet (c +:+ ".nextSyncToken") JNull;
               DbSet (c +:+ ".channelId") JNull;
               DbSet (c +:+ ".resourceId") JNull;
               DbSet (c +:+ ".expiration") JNull ].
      split.
      * unfold continues. simpl. rewrite <- !app_assoc. reflexivity.
      * intros id rid Hin. simpl in Hin.
        repeat (apply elem_of_cons in Hin as [Hin|Hin]; [discriminate|]).
        by apply elem_of_nil in Hin.
    + intros f Hf. rewrite lookup_clear_fields.
      rewrite bool_decide_eq_true_2; [done|]. by apply list_elem_of_fmap_2.
  - unfold db_lookup. simpl.
    rewrite lookup_insert_ne by (by apply key_field_ne).
    rewrite lookup_insert_ne by (by apply key_field_ne).
    by rewrite lookup_insert_eq.
  - unfold db_lookup. simpl.
    rewrite lookup_insert_ne by (by apply key_field_ne).
    by rewrite lookup_insert_eq.
Qed.

(** One millisecond before the threshold nothing is renewed. *)
Example tick_before_threshold :
  run (renewal_host (1700000000000 - 82800000 - 1) 204) (one_calendar false) 0
      (timer_tick 82800) (world0 watched_store)
  = (Done tt, world0 watched_store).
Proof.
  apply (proj1 (run_tick_threshold
                  (renewal_host (1700000000000 - 82800000 - 1) 204)
                  (one_calendar false) 0 (timer_tick 82800)
                  (world0 watched_store) 82800 1700000000000
                  eq_refl eq_refl)).
  simpl. lia.
Qed.

(** C1. One millisecond after the threshold the renewal runs on the store
    that holds the channel ["old-ch"]: the new channel ["new-ch"] is
    established and persisted first, then the stop RPC is called for the new
    channel, not for ["old-ch"], and as it answers 204 the four fields just
    written are set to [null]; the old channel is never stopped. *)
Theorem renewal_stops_new_channel :
  let h := renewal_host (1700000000000 - 82800000 + 1) 204 in
  let r := run h (one_calendar false) 0 (timer_tick 82800) (world0 watched_store) in
  r.1 = Done tt ∧
  trace r.2
  = [ CallWatch "cal" (JStr "new-ch") (JStr "https://endpoint.example/hook");
      CallFullSync (JStr "cal");
      DbSet "cal.nextSyncToken" (JStr "tok1");
      DbSet "cal.channelId" (JStr "new-ch");
      DbSet "cal.resourceId" (JStr "new-res");
      DbSet "cal.expiration" (JStr "1700600000000");
      CallStop (JStr "new-ch") (JStr "new-res");
      Log "webhook deactivated";
      DbSet "cal.nextSyncToken" JNull;
      DbSet "cal.channelId" JNull;
      DbSet "cal.resourceId" JNull;
      DbSet "cal.expiration" JNull ] ∧
  (CallStop (JStr "old-ch") (JStr "old-res") ∉ trace r.2) ∧
  (∀ f, f ∈ calendar_fields → db r.2 !! ("cal" +:+ f) = Some JNull).
Proof.
  intros h r.
  assert (Htrace : trace r.2
    = [ CallWatch "cal" (JStr "new-ch") (JStr "https://endpoint.example/hook");
        CallFullSync (JStr "cal");
        DbSet "cal.nextSyncToken" (JStr "tok1");
        DbSet "cal.channelId" (JStr "new-ch");
        DbSet "cal.resourceId" (JStr "new-res");
        DbSet "cal.expiration" (JStr "1700600000000");
        CallStop (JStr "new-ch") (JStr "new-res");
        Log "webhook deactivated";
        DbSet "cal.nextSyncToken" JNull;
        DbSet "cal.channelId" JNull;
        DbSet "cal.resourceId" JNull;
        DbSet "cal.expiration" JNull ]) by (vm_compute; reflexivity).
  split; [vm_compute; reflexivity|]. split; [exact Htrace|]. split.
  - rewrite Htrace. intros Hin.
    repeat (apply elem_of_cons in Hin as [Hin|Hin]; [discriminate|]).
    by apply elem_of_nil in Hin.
  - intros f Hf. unfold calendar_fields in Hf.
    repeat (apply elem_of_cons in Hf as [->|Hf]; [vm_compute; reflexivity|]).
    by apply elem_of_nil in Hf.
Qed.

(** ** Invalidation in the middle of a feed (C2) *)

(** C2. On a three-page feed whose second request is answered with status
    410, the items of the first page are emitted, no third request is made,
    and the token returned by the resync is persisted for the calendar; but
    the resync itself is requested with [undefined] as calendar id
    ([this.calendarId]), not with the calendar ["cal"] being fetched. *)
Theorem invalidation_resyncs_undefined_calendar :
  let h := feed_host invalidated_feed in
  let r := run h (one_calendar false) 5 (notification "old-ch" "exists")
             (world0 watched_store) in
  r.1 = Done tt ∧
  trace r.2
  = [ CallList "cal" (JStr "tok0") JNull;
      Emit ev_a (generateMeta h ev_a);
      Emit ev_b (generateMeta h ev_b);
      CallList "cal" (JStr "tok0") (JStr "p2");
      Log "Sync token invalid, resyncing";
      CallFullSync JUndef;
      DbSet "cal.nextSyncToken" (JStr "tok-resync") ] ∧
  (CallFullSync (JStr "cal") ∉ trace r.2) ∧
  n_list r.2 = 2%nat ∧
  db r.2 !! "cal.nextSyncToken" = Some (JStr "tok-resync").
Proof.
  intros h r.
  assert (Htrace : trace r.2
    = [ CallList "cal" (JStr "tok0") JNull;
        Emit ev_a (generateMeta h ev_a);
        Emit ev_b (generateMeta h ev_b);
        CallList "cal" (JStr "tok0") (JStr "p2");
        Log "Sync token invalid, resyncing";
        CallFullSync JUndef;
        DbSet "cal.nextSyncToken" (JStr "tok-resync") ])
    by (vm_compute; reflexivity).
  split; [vm_compute; reflexivity|]. split; [exact Htrace|]. split.
  - rewrite Htrace. intros Hin.
    repeat (apply elem_of_cons in Hin as [Hin|Hin]; [discriminate|]).
    by apply elem_of_nil in Hin.
  - split; vm_compute; reflexivity.
Qed.

(** The same holds on every host and for every calendar: the resync after a
    410 is requested for [undefined]. *)
Lemma invalidation_resync_request (h : host) (this : component) (fuel : nat)
    (c : string) (tok npt : jsval) (w : world) (r : list_response) :
  list_resp h (n_list w) = Some r → lr_status r = 410 →
  continues w (fetch_loop h this (S fuel) c tok JNull npt w).2
    [ CallList c tok npt; Log "Sync token invalid, resyncing";
      CallFullSync JUndef ].
Proof.
  intros Hr Hs. rewrite (fetch_loop_step_410 _ _ _ _ _ _ _ _ r) by done.
  unfold continues. simpl. by rewrite <- !app_assoc.
Qed.

(** ** Activation and deactivation, end to end *)

(** Activation with two calendars persists a sync token, a channel id, a
    resource id and an expiration for each of them. *)
Example activate_two_calendars :
  let r := activate partial_stop_host two_calendars (world0 ∅) in
  r.1 = Done tt ∧
  (λ key, db r.2 !! key)
    <$> [ "work.nextSyncToken"; "work.channelId"; "work.resourceId";
          "work.expiration"; "home.nextSyncToken"; "home.channelId";
          "home.resourceId"; "home.expiration" ]
  = [ Some (JStr "tok-0"); Some (JStr "ch-0"); Some (JStr "res-0");
      Some (JStr "1700600000000"); Some (JStr "tok-1"); Some (JStr "ch-1");
      Some (JStr "res-1"); Some (JStr "1700600000000") ].
Proof. intros r. split; vm_compute; reflexivity. Qed.

(** Deactivation clears the record of the calendar whose stop call answers
    204 and leaves the record of the calendar whose stop call fails as it
    was; the invocation still returns normally. *)
Example deactivate_partial_failure :
  let r := deactivate partial_stop_host two_calendars (world0 two_store) in
  r.1 = Done tt ∧
  (λ key, db r.2 !! key)
    <$> [ "work.nextSyncToken"; "work.channelId"; "work.resourceId";
          "work.expiration"; "home.nextSyncToken"; "home.channelId";
          "home.resourceId"; "home.expiration" ]
  = [ Some JNull; Some JNull; Some JNull; Some JNull;
      Some (JStr "home-0"); Some (JStr "ch-home"); Some (JStr "res-home");
      Some (JStr "1700000000000") ].
Proof. intros r. split; vm_compute; reflexivity. Qed.

(** * Further properties of the component *)

(** ** Store keys *)

Lemma string_app_cons (a : ascii) (s t : string) :
  String a s +:+ t = String a (s +:+ t).
Proof. reflexivity. Qed.

Lemma string_app_nil_r (s : string) : s +:+ "" = s.
Proof. induction s as [|a s IH]; [done|]. by rewrite string_app_cons, IH. Qed.

Lemma string_length_app (s t : string) :
  String.length (s +:+ t) = (String.length s + String.length t)%nat.
Proof.
  induction s as [|a s IH]; [done|]. rewrite string_app_cons. simpl.
  by rewrite IH.
Qed.

Lemma string_app_assoc (s t u : string) : (s +:+ t) +:+ u = s +:+ t +:+ u.
Proof.
  induction s as [|a s IH]; [done|]. by rewrite !string_app_cons, IH.
Qed.

(** Two ways of splitting one string: one prefix extends the other. *)
Lemma string_app_eq_app (c1 : string) :
  ∀ c2 f g : string,
    c1 +:+ f = c2 +:+ g →
    (∃ x, c2 = c1 +:+ x ∧ f = x +:+ g) ∨ (∃ x, c1 = c2 +:+ x ∧ g = x +:+ f).
Proof.
  induction c1 as [|a c1 IH]; intros c2 f g Heq.
  - left. by exists c2.
  - destruct c2 as [|b c2].
    + right. by exists (String a c1).
    + rewrite !string_app_cons in Heq. injection Heq as -> Heq.
      destruct (IH _ _ _ Heq) as [(x & -> & ->)|(x & -> & ->)];
        [left|right]; by exists x.
Qed.

(** The suffix [g] of a field name [f]: only the whole name is another
    field name. *)
Lemma field_suffix (x f g : string) :
  f ∈ calendar_fields → g ∈ calendar_fields → f = x +:+ g → x = "".
Proof.
  unfold calendar_fields. intros Hf Hg Heq.
  repeat (apply elem_of_cons in Hf as [->|Hf]);
    [..|by apply elem_of_nil in Hf];
    (repeat (apply elem_of_cons in Hg as [->|Hg]);
       [..|by apply elem_of_nil in Hg]);
    repeat (destruct x as [|? x];
            [ first [done | discriminate Heq]
            | rewrite string_app_cons in Heq;
              first [discriminate Heq | injection Heq as <- Heq] ]).
Qed.

Lemma field_key_inj (c1 c2 f g : string) :
  f ∈ calendar_fields → g ∈ calendar_fields →
  c1 +:+ f = c2 +:+ g → c1 = c2 ∧ f = g.
Proof.
  intros Hf Hg Heq.
  destruct (string_app_eq_app _ _ _ _ Heq) as [(x & -> & Hx)|(x & -> & Hx)].
  - pose proof (field_suffix x f g Hf Hg Hx) as ->.
    by rewrite string_app_nil_r.
  - pose proof (field_suffix x g f Hg Hf Hx) as ->.
    by rewrite string_app_nil_r.
Qed.

(** The keys of the store never collide: the key of one calendar's field is
    the key of no other calendar and of no other field, whatever characters
    the calendar ids contain. *)
Theorem store_keys_injective (c1 c2 f g : string) :
  f ∈ calendar_fields → g ∈ calendar_fields →
  c1 +:+ f = c2 +:+ g → c1 = c2 ∧ f = g.
Proof.
  intros Hf Hg Heq.
  destruct (string_app_eq_app _ _ _ _ Heq) as [(x & -> & Hx)|(x & -> & Hx)].
  - pose proof (field_suffix x f g Hf Hg Hx) as ->.
    by rewrite string_app_nil_r.
  - pose proof (field_suffix x g f Hg Hf Hx) as ->.
    by rewrite string_app_nil_r.
Qed.

Lemma store_keys_injective_witness :
  "a.b" = "a.b" ∧ ".channelId" = ".channelId".
Proof.
  apply (store_keys_injective "a.b" "a.b" ".channelId" ".channelId").
  - apply list_elem_of_further, list_elem_of_here.
  - apply list_elem_of_further, list_elem_of_here.
  - reflexivity.
Defined.

(** ** Which keys an invocation writes *)

Lemma in_token_field : ".nextSyncToken" ∈ calendar_fields.
Proof. apply list_elem_of_here. Qed.

Lemma in_channel_field : ".channelId" ∈ calendar_fields.
Proof. apply list_elem_of_further, list_elem_of_here. Qed.

Lemma in_resource_field : ".resourceId" ∈ calendar_fields.
Proof. do 2 apply list_elem_of_further. apply list_elem_of_here. Qed.

Lemma in_expiration_field : ".expiration" ∈ calendar_fields.
Proof. do 3 apply list_elem_of_further. apply list_elem_of_here. Qed.

Section Frames.
Context (h : host) (this : component) (K : string → Prop).

Lemma frames_ret {A} (a : A) : frames K (ret a).
Proof. by intros w key _. Qed.

Lemma frames_bind {A B} (c : M A) (k : A → M B) :
  frames K c → (∀ a, frames K (k a)) → frames K (bind c k).
Proof.
  intros Hc Hk w key Hkey. unfold bind.
  specialize (Hc w key Hkey).
  destruct (c w) as [[a| |] w1]; simpl in *; [|done..].
  by rewrite (Hk a w1 key Hkey).
Qed.

Lemma frames_for_of {A} (l : list A) (body : A → M unit) :
  (∀ x, x ∈ l → frames K (body x)) → frames K (for_of l body).
Proof.
  induction l as [|x l IH]; intros Hbody; simpl.
  - apply frames_ret.
  - apply frames_bind.
    + apply Hbody, list_elem_of_here.
    + intros _. apply IH. intros y Hy. by apply Hbody, list_elem_of_further.
Qed.

Lemma frames_same {A} (c : M A) : (∀ w, db (c w).2 = db w) → frames K c.
Proof. intros Hc w key _. by rewrite Hc. Qed.

Lemma frames_db_set (key : string) (v : jsval) : K key → frames K (db_set key v).
Proof.
  intros Hk w key' Hkey'. simpl. apply lookup_insert_ne. by intros ->.
Qed.

End Frames.

(** The pagination loop itself never writes to the store. *)
Lemma fetch_loop_keeps_db (h : host) (this : component) (fuel : nat)
    (c : string) (tok : jsval) :
  ∀ nst npt w, db (fetch_loop h this fuel c tok nst npt w).2 = db w.
Proof.
  induction fuel as [|fuel IH]; intros nst npt w;
    (destruct (decide (truthy nst = true)) as [Ht|Ht%not_true_is_false];
     [by rewrite fetch_loop_truthy|]).
  - by rewrite fetch_loop_exhausted.
  - destruct (list_resp h (n_list w)) as [r|] eqn:Hr;
      [|by rewrite fetch_loop_step_throw].
    destruct (decide (lr_status r = 410)) as [Hs|Hs].
    + by rewrite (fetch_loop_step_410 _ _ _ _ _ _ _ _ r).
    + rewrite (fetch_loop_step_page _ _ _ _ _ _ _ _ r) by done.
      by rewrite IH.
Qed.

(** The sync token of a calendar is replaced only when its pagination
    completes: a fetch that ends normally has written the calendar's
    [nextSyncToken] key and nothing else, and a fetch that is cut short (a
    rejected [list] or [fullSync] call) leaves the whole store, the old
    token included, as it was. *)
Theorem fetch_calendar_store (h : host) (this : component) (fuel : nat)
    (c : string) (w : world) :
  let r := fetch_calendar h this fuel c w in
  (r.1 = Done tt → ∃ v, db r.2 = <[c +:+ ".nextSyncToken" := v]> (db w)) ∧
  (r.1 ≠ Done tt → db r.2 = db w).
Proof.
  intros r. unfold r, fetch_calendar, bind, db_get.
  pose proof (fetch_loop_keeps_db h this fuel c
                (db_lookup (db w) (c +:+ ".nextSyncToken")) JNull JNull w) as Hdb.
  destruct (fetch_loop h this fuel c _ JNull JNull w) as [[v| |] w1];
    simpl in *.
  - split; [|done]. intros _. exists v. by rewrite Hdb.
  - by split.
  - by split.
Qed.

Lemma fetch_calendar_store_witness :
  let w := world0 watched_store in
  (∃ v, db (fetch_calendar (feed_host invalidated_feed) (one_calendar false) 5
              "cal" w).2 = <["cal.nextSyncToken" := v]> (db w)) ∧
  db (fetch_calendar (renewal_host 0 204) (one_calendar false) 5 "cal" w).2
  = db w.
Proof.
  intros w. split.
  - apply (proj1 (fetch_calendar_store (feed_host invalidated_feed)
                    (one_calendar false) 5 "cal" w)).
    vm_compute. reflexivity.
  - apply (proj2 (fetch_calendar_store (renewal_host 0 204)
                    (one_calendar false) 5 "cal" w)).
    vm_compute. discriminate.
Defined.

Lemma frames_fetch_calendar (h : host) (this : component) (fuel : nat)
    (c : string) (K : string → Prop) :
  K (c +:+ ".nextSyncToken") → frames K (fetch_calendar h this fuel c).
Proof.
  intros Hk. unfold fetch_calendar.
  apply frames_bind; [by apply frames_same|]. intros tok.
  apply frames_bind; [apply frames_same, fetch_loop_keeps_db|]. intros v.
  by apply frames_db_set.
Qed.

Lemma frames_run_notification (h : host) (this : component) (fuel : nat)
    (event : trigger) :
  is_tick event = None →
  frames (sync_token_key (calendarIds this)) (run h this fuel event).
Proof.
  intros Htick. unfold run. rewrite Htick.
  apply frames_bind.
  { apply frames_same. intros w. by rewrite collect_channelIds_spec. }
  intros ids. destruct (negb _); [by apply frames_same|].
  repeat case_bool_decide; try by apply frames_same.
  apply frames_for_of. intros c Hc. apply frames_fetch_calendar. by exists c.
Qed.

(** A notification never changes which channels are persisted: whatever
    the feed answers, the invocation writes to no key other than the
    [nextSyncToken] of a configured calendar, so every calendar's channel id,
    resource id and expiration are afterwards what they were before. *)
Theorem notification_keeps_channels (h : host) (this : component) (fuel : nat)
    (event : trigger) (w : world) :
  is_tick event = None →
  let w' := (run h this fuel event w).2 in
  (∀ key, ¬ sync_token_key (calendarIds this) key → db w' !! key = db w !! key) ∧
  (∀ c f, f ∈ [".channelId"; ".resourceId"; ".expiration"] →
          db_lookup (db w') (c +:+ f) = db_lookup (db w) (c +:+ f)) ∧
  persisted_channelIds this w' = persisted_channelIds this w.
Proof.
  intros Htick w'.
  assert (Hframe : ∀ key, ¬ sync_token_key (calendarIds this) key →
                          db w' !! key = db w !! key).
  { intros key Hkey. by apply frames_run_notification. }
  assert (Hfields : ∀ c f, f ∈ [".channelId"; ".resourceId"; ".expiration"] →
            db_lookup (db w') (c +:+ f) = db_lookup (db w) (c +:+ f)).
  { intros c f Hf. unfold db_lookup. rewrite Hframe; [done|].
    intros (c' & _ & Heq).
    apply field_key_inj in Heq as [_ ->];
      [|by apply list_elem_of_further|apply in_token_field].
    repeat (apply elem_of_cons in Hf as [Hf|Hf]; [discriminate|]).
    by apply elem_of_nil in Hf. }
  split; [done|]. split; [done|].
  unfold persisted_channelIds. apply list_fmap_ext. intros _ c _.
  apply Hfields, list_elem_of_here.
Qed.

Lemma notification_keeps_channels_witness :
  persisted_channelIds two_calendars
    (run (feed_host two_feed) two_calendars 5 (notification "ch-home" "exists")
         (world0 two_store)).2
  = persisted_channelIds two_calendars (world0 two_store).
Proof.
  apply (proj2 (proj2 (notification_keeps_channels (feed_host two_feed)
           two_calendars 5 (notification "ch-home" "exists") (world0 two_store)
           eq_refl))).
Defined.

(** ** Which effects an invocation has *)

Lemma appends_weaken {A} (P Q : io_event → Prop) (c : M A) :
  (∀ e, P e → Q e) → appends P c → appends Q c.
Proof.
  intros HPQ Hc w. destruct (Hc w) as (new & Hnew & Hall).
  exists new. split; [done|]. by eapply Forall_impl.
Qed.

Lemma appends_for_of_in {A} (P : io_event → Prop) (l : list A)
    (body : A → M unit) :
  (∀ x, x ∈ l → appends P (body x)) → appends P (for_of l body).
Proof.
  induction l as [|x l IH]; intros Hbody; simpl.
  - apply appends_ret.
  - apply appends_bind.
    + apply Hbody, list_elem_of_here.
    + intros _. apply IH. intros y Hy. by apply Hbody, list_elem_of_further.
Qed.

Lemma appends_silent {A} (P : io_event → Prop) (c : M A) :
  (∀ w, trace (c w).2 = trace w) → appends P c.
Proof.
  intros Hc w. exists []. split; [|done].
  unfold continues. by rewrite Hc, app_nil_r.
Qed.

Lemma appends_all {A} (P : io_event → Prop) (c : M A) (es : list io_event) :
  Forall P es → (∀ w, trace (c w).2 = trace w ++ es) → appends P c.
Proof. intros Hes Hc w. exists es. split; [apply Hc|done]. Qed.

Lemma appends_log (P : io_event → Prop) (msg : string) :
  P (Log msg) → appends P (console_log msg).
Proof. intros HP. by apply (appends_one _ _ (Log msg)). Qed.

Section NotificationEffects.
Context (h : host) (this : component).

Lemma page_effects_allowed (evs : list calendar_event) :
  Forall (notification_effect h this) (page_effects h this evs).
Proof.
  unfold page_effects. apply Forall_fmap, Forall_forall. intros ev Hin.
  apply list_elem_of_In, filter_In in Hin as [_ Hrel]. simpl.
  by case_bool_decide.
Qed.

Lemma fetch_loop_effects (fuel : nat) (c : string) (tok : jsval) :
  c ∈ calendarIds this →
  ∀ nst npt,
    appends (notification_effect h this) (fetch_loop h this fuel c tok nst npt).
Proof.
  intros Hc. induction fuel as [|fuel IH]; intros nst npt; simpl.
  - destruct (truthy nst); [apply appends_ret|by apply appends_silent].
  - destruct (truthy nst); [apply appends_ret|].
    apply appends_bind; [by apply (appends_one _ _ (CallList c tok npt))|].
    intros resp. case_bool_decide.
    + apply appends_bind; [by apply appends_log|].
      intros _. by apply (appends_one _ _ (CallFullSync JUndef)).
    + apply appends_bind; [|intros _; apply IH].
      apply (appends_all _ _ (page_effects h this
               (ld_items (default empty_data (lr_data resp)))));
        [apply page_effects_allowed|].
      intros w. by rewrite emit_page_spec.
Qed.

Lemma fetch_and_emit_effects (fuel : nat) :
  appends (notification_effect h this) (fetch_and_emit h this fuel).
Proof.
  apply appends_for_of_in. intros c Hc. unfold fetch_calendar.
  apply appends_bind; [by apply appends_silent|]. intros tok.
  apply appends_bind; [by apply fetch_loop_effects|]. intros v.
  apply (appends_one _ _ (DbSet (c +:+ ".nextSyncToken") v)); [|done].
  by exists c.
Qed.

End NotificationEffects.

Lemma run_notification_effects (h : host) (this : component) (fuel : nat)
    (event : trigger) :
  is_tick event = None →
  appends (notification_effect h this) (run h this fuel event).
Proof.
  intros Htick. unfold run. rewrite Htick.
  apply appends_bind.
  { apply appends_silent. intros w. by rewrite collect_channelIds_spec. }
  intros ids. destruct (negb _); [by apply appends_log|].
  repeat case_bool_decide; try by apply appends_log.
  apply fetch_and_emit_effects.
Qed.

(** Everything a notification can cause: [list] requests for configured
    calendars, the resync request, log lines, writes to the sync-token key
    of a configured calendar, and emissions; it never calls the watch or the
    stop RPC, and every emission is of an event that passed
    [isEventRelevant], is not cancelled, and carries the metadata
    [generateMeta] computes for it. *)
Theorem notification_effects (h : host) (this : component) (fuel : nat)
    (event : trigger) (w : world) :
  is_tick event = None →
  ∃ new, continues w (run h this fuel event w).2 new ∧
         Forall (notification_effect h this) new.
Proof. intros Htick. by apply run_notification_effects. Qed.

Lemma notification_effects_witness :
  ∃ new,
    continues (world0 watched_store)
      (run (feed_host invalidated_feed) (one_calendar true) 5
           (notification "old-ch" "exists") (world0 watched_store)).2 new ∧
    Forall (notification_effect (feed_host invalidated_feed) (one_calendar true))
           new.
Proof.
  apply (notification_effects (feed_host invalidated_feed) (one_calendar true) 5
           (notification "old-ch" "exists") (world0 watched_store)).
  reflexivity.
Defined.

(** With [newOnly] set, every event a notification emits has [created] and
    [updated] timestamps that both parse and lie at most 2000 ms apart. *)
Theorem newOnly_emits_new_events (h : host) (this : component) (fuel : nat)
    (event : trigger) (w : world) :
  is_tick event = None → newOnly this = true →
  ∃ new, continues w (run h this fuel event w).2 new ∧
         ∀ ev m, Emit ev m ∈ new →
           ∃ created updated : Z,
             Date_parse h (ev_created ev) = Some created ∧
             Date_parse h (ev_updated ev) = Some updated ∧
             Z.abs (updated - created) <= 2000.
Proof.
  intros Htick Hflag.
  destruct (run_notification_effects h this fuel event Htick w)
    as (new & Hnew & Hall).
  exists new. split; [done|]. intros ev m Hin.
  rewrite Forall_forall in Hall. destruct (Hall _ Hin) as (_ & Hrel & _).
  unfold isEventRelevant in Hrel. rewrite Hflag in Hrel.
  by apply _isNewEvent_spec.
Qed.

Lemma newOnly_emits_new_events_witness :
  ∃ new,
    continues (world0 watched_store)
      (run (feed_host invalidated_feed) (one_calendar true) 5
           (notification "old-ch" "exists") (world0 watched_store)).2 new ∧
    ∀ ev m, Emit ev m ∈ new →
      ∃ created updated : Z,
        Date_parse_utc (ev_created ev) = Some created ∧
        Date_parse_utc (ev_updated ev) = Some updated ∧
        Z.abs (updated - created) <= 2000.
Proof.
  apply (newOnly_emits_new_events (feed_host invalidated_feed)
           (one_calendar true) 5 (notification "old-ch" "exists")
           (world0 watched_store)); reflexivity.
Defined.

Section LifecycleEffects.
Context (h : host) (this : component).

Lemma makeWatchRequest_effects :
  appends (activation_effect h this) (makeWatchRequest h this).
Proof.
  apply appends_for_of_in. intros c Hc. unfold makeWatchRequest_body.
  assert (Hkey : ∀ f, f ∈ calendar_fields →
                      calendar_key (calendarIds this) (c +:+ f)).
  { intros f Hf. by exists c, f. }
  intros w. unfold bind, new_uuid, googleCalendar_watch, googleCalendar_fullSync.
  simpl.
  destruct (watch_resp h (n_watch w)) as [data|]; simpl.
  - destruct (fullSync_resp h (n_fullSync w)) as [tok|]; simpl.
    + eexists. split.
      * unfold continues. simpl. rewrite <- !app_assoc. reflexivity.
      * repeat constructor; simpl; auto using in_token_field,
          in_channel_field, in_resource_field, in_expiration_field.
        all: try by eexists.
    + eexists. split.
      * unfold continues. simpl. rewrite <- !app_assoc. reflexivity.
      * repeat constructor; simpl; auto. all: try by eexists.
  - eexists. split; [reflexivity|].
    repeat constructor; simpl; auto. by eexists.
Qed.

Lemma stopWatchRequest_effects :
  appends (teardown_effect this) (stopWatchRequest h this).
Proof.
  apply appends_for_of_in. intros c Hc. unfold stopWatchRequest_body.
  assert (Hkey : ∀ f, f ∈ calendar_fields →
                      calendar_key (calendarIds this) (c +:+ f)).
  { intros f Hf. by exists c, f. }
  apply appends_bind; [by apply appends_silent|]. intros id.
  apply appends_bind; [by apply appends_silent|]. intros rid.
  destruct (truthy id) eqn:Tid; simpl; [|apply appends_ret].
  destruct (truthy rid) eqn:Trid; simpl; [|apply appends_ret].
  apply appends_bind; [by apply (appends_one _ _ (CallStop id rid))|].
  intros st. case_bool_decide; [|by apply appends_log].
  apply appends_bind; [by apply appends_log|]. intros _.
  apply appends_bind;
    [apply (appends_one _ _ (DbSet (c +:+ ".nextSyncToken") JNull));
       [split; [done|apply Hkey, in_token_field]|done]|]. intros _.
  apply appends_bind;
    [apply (appends_one _ _ (DbSet (c +:+ ".channelId") JNull));
       [split; [done|apply Hkey, in_channel_field]|done]|]. intros _.
  apply appends_bind;
    [apply (appends_one _ _ (DbSet (c +:+ ".resourceId") JNull));
       [split; [done|apply Hkey, in_resource_field]|done]|]. intros _.
  apply (appends_one _ _ (DbSet (c +:+ ".expiration") JNull));
    [split; [done|apply Hkey, in_expiration_field]|done].
Qed.

End LifecycleEffects.

Lemma stopWatchRequest_effects_from (h : host) (ids : list string)
    (store : gmap string jsval) (l : list string) :
  (∀ c, c ∈ l → c ∈ ids) →
  ∀ w,
    (∀ key, db_lookup (db w) key = JNull
            ∨ db_lookup (db w) key = db_lookup store key) →
    ∃ new, continues w (for_of l (stopWatchRequest_body h) w).2 new ∧
           Forall (teardown_effect_from ids store) new.
Proof.
  induction l as [|c l IH]; intros Hsub w Hinv.
  - exists []. split; [|done]. unfold continues. simpl. by rewrite app_nil_r.
  - assert (Hc : c ∈ ids) by apply Hsub, list_elem_of_here.
    assert (Hl : ∀ c', c' ∈ l → c' ∈ ids).
    { intros c' Hc'. by apply Hsub, list_elem_of_further. }
    assert (Hkey : ∀ f, f ∈ calendar_fields → calendar_key ids (c +:+ f)).
    { intros f Hf. by exists c, f. }
    simpl. unfold bind.
    destruct (has_channel (db w) c) eqn:Hch.
    + pose proof Hch as Hch'. unfold has_channel in Hch'.
      apply andb_true_iff in Hch' as [Tid Trid].
      assert (Hstop : teardown_effect_from ids store
                (CallStop (db_lookup (db w) (c +:+ ".channelId"))
                          (db_lookup (db w) (c +:+ ".resourceId")))).
      { simpl. split; [done|]. split; [done|]. exists c. split; [done|].
        split.
        - destruct (Hinv (c +:+ ".channelId")) as [Hn|Heq]; [|done].
          by rewrite Hn in Tid.
        - destruct (Hinv (c +:+ ".resourceId")) as [Hn|Heq]; [|done].
          by rewrite Hn in Trid. }
      destruct (stop_resp h (n_stop w)) as [status|] eqn:Hresp.
      * rewrite (stopWatchRequest_body_call h c w _ _ status eq_refl eq_refl
                   Tid Trid Hresp).
        destruct (decide (status = 204)) as [Hs|Hs].
        -- rewrite bool_decide_eq_true_2 by done.
           match goal with
           | |- context [for_of l _ ?w1] => destruct (IH Hl w1) as (new & Hnew & Hall)
           end.
           { intros key. simpl.
             assert (Hlk : ∀ st : gmap string jsval,
               db_lookup
                 (<[c +:+ ".expiration" := JNull]>
                    (<[c +:+ ".resourceId" := JNull]>
                       (<[c +:+ ".channelId" := JNull]>
                          (<[c +:+ ".nextSyncToken" := JNull]> st)))) key
               = if bool_decide (key ∈ (String.append c <$> calendar_fields))
                 then JNull else db_lookup st key).
             { intros st. unfold db_lookup. rewrite lookup_clear_fields.
               by destruct (bool_decide _). }
             rewrite !Hlk. destruct (bool_decide _); [by left|apply Hinv]. }
           exists ([ CallStop (db_lookup (db w) (c +:+ ".channelId"))
                              (db_lookup (db w) (c +:+ ".resourceId"));
                     Log "webhook deactivated";
                     DbSet (c +:+ ".nextSyncToken") JNull;
                     DbSet (c +:+ ".channelId") JNull;
                     DbSet (c +:+ ".resourceId") JNull;
                     DbSet (c +:+ ".expiration") JNull ] ++ new).
           split.
           ++ unfold continues in *. rewrite Hnew. simpl.
              by rewrite <- !app_assoc.
           ++ apply Forall_app. split; [|done].
              repeat constructor; simpl;
                auto using in_token_field, in_channel_field,
                  in_resource_field, in_expiration_field;
                apply Hstop.
        -- rewrite bool_decide_eq_false_2 by done.
           match goal with
           | |- context [for_of l _ ?w1] => destruct (IH Hl w1) as (new & Hnew & Hall)
           end.
           { exact Hinv. }
           exists ([ CallStop (db_lookup (db w) (c +:+ ".channelId"))
                              (db_lookup (db w) (c +:+ ".resourceId"));
                     Log "There was a problem deactivating the webhook" ]
                   ++ new).
           split.
           ++ unfold continues in *. rewrite Hnew. simpl.
              by rewrite <- !app_assoc.
           ++ apply Forall_app. split; [|done].
              repeat constructor; simpl; apply Hstop.
      * unfold stopWatchRequest_body, bind, db_get, googleCalendar_stop.
        unfold has_channel in Hch. rewrite Hch. simpl. rewrite Hresp. simpl.
        exists [ CallStop (db_lookup (db w) (c +:+ ".channelId"))
                          (db_lookup (db w) (c +:+ ".resourceId")) ].
        split; [done|]. constructor; [exact Hstop|constructor].
    + assert (Hskip : stopWatchRequest_body h c w = (Done tt, w)).
      { unfold has_channel in Hch.
        unfold stopWatchRequest_body, bind, db_get. by rewrite Hch. }
      rewrite Hskip. by apply IH.
Qed.



(** ** Teardown over all calendars *)

Lemma field_key_in (c f : string) :
  f ∈ calendar_fields → c +:+ f ∈ (String.append c <$> calendar_fields).
Proof. apply list_elem_of_fmap_2. Qed.

Lemma stopWatchRequest_body_skip (h : host) (c : string) (w : world) :
  has_channel (db w) c = false → stopWatchRequest_body h c w = (Done tt, w).
Proof.
  unfold has_channel, stopWatchRequest_body, bind, db_get. by intros ->.
Qed.

(** One teardown step under a stop RPC that answers 204. *)
Lemma stopWatchRequest_body_204 (h : host) (c : string) (w : world) :
  stop_resp h (n_stop w) = Some 204 →
  ∃ w', stopWatchRequest_body h c w = (Done tt, w') ∧
        ∀ key, db_lookup (db w') key
               = if has_channel (db w) c
                    && bool_decide (key ∈ (String.append c <$> calendar_fields))
                 then JNull else db_lookup (db w) key.
Proof.
  intros Hstop. destruct (has_channel (db w) c) eqn:Hch.
  - pose proof Hch as Hch'. unfold has_channel in Hch'.
    apply andb_true_iff in Hch' as [Tid Trid].
    eexists. split.
    + rewrite (stopWatchRequest_body_call h c w _ _ 204 eq_refl eq_refl
                 Tid Trid Hstop). reflexivity.
    + intros key. unfold db_lookup at 1. simpl.
      rewrite lookup_clear_fields. unfold calendar_fields. simpl.
      by destruct (bool_decide _).
  - exists w. split; [by apply stopWatchRequest_body_skip|done].
Qed.

(** Teardown with nothing to tear down: when no configured calendar has both
    a channel id and a resource id in the store (missing, [null] or empty),
    [stopWatchRequest] calls no RPC and leaves the world as it is. *)
Theorem deactivate_without_channels (h : host) (this : component) (w : world) :
  (∀ c, c ∈ calendarIds this → has_channel (db w) c = false) →
  deactivate h this w = (Done tt, w).
Proof.
  unfold deactivate, stopWatchRequest.
  induction (calendarIds this) as [|c l IH]; intros Hall; simpl; [done|].
  unfold bind. rewrite stopWatchRequest_body_skip.
  - apply IH. intros c' Hc'. by apply Hall, list_elem_of_further.
  - apply Hall, list_elem_of_here.
Qed.

Lemma deactivate_without_channels_witness :
  deactivate (renewal_host 0 204) two_calendars (world0 watched_store)
  = (Done tt, world0 watched_store).
Proof.
  apply (deactivate_without_channels (renewal_host 0 204) two_calendars
           (world0 watched_store)).
  intros c Hc.
  repeat (apply elem_of_cons in Hc as [->|Hc]; [vm_compute; reflexivity|]).
  by apply elem_of_nil in Hc.
Defined.

Lemma for_of_stop_204 (h : host) (l : list string) :
  (∀ n, stop_resp h n = Some 204) →
  ∀ w, ∃ w',
    for_of l (stopWatchRequest_body h) w = (Done tt, w') ∧
    (∀ key, db_lookup (db w') key = JNull
            ∨ db_lookup (db w') key = db_lookup (db w) key) ∧
    (∀ c, c ∈ l → has_channel (db w') c = false) ∧
    (∀ c, c ∈ l → has_channel (db w) c = true →
          db_lookup (db w') (c +:+ ".channelId") = JNull).
Proof.
  intros Hstop. induction l as [|c l IH]; intros w.
  - exists w. split; [done|]. split; [by right|].
    split; intros c Hc; by apply elem_of_nil in Hc.
  - destruct (stopWatchRequest_body_204 h c w (Hstop _)) as (w1 & Hrun1 & Hdb1).
    destruct (IH w1) as (w' & Hrun & Hdb & Hno & Hnull).
    assert (Hmono : ∀ key, db_lookup (db w') key = JNull
                           ∨ db_lookup (db w') key = db_lookup (db w) key).
    { intros key. destruct (Hdb key) as [?|Heq]; [by left|].
      rewrite Heq, Hdb1. destruct (_ && _); [by left|by right]. }
    assert (Hfalse : ∀ c', has_channel (db w1) c' = false →
                           has_channel (db w') c' = false).
    { intros c' Hc'. unfold has_channel in *.
      destruct (Hdb (c' +:+ ".channelId")) as [-> | ->]; [done|].
      destruct (Hdb (c' +:+ ".resourceId")) as [-> | ->]; [|done].
      by rewrite andb_false_r. }
    assert (Hc1 : has_channel (db w1) c = false).
    { unfold has_channel.
      rewrite (Hdb1 (c +:+ ".channelId")), (Hdb1 (c +:+ ".resourceId")).
      destruct (has_channel (db w) c) eqn:Hch.
      - rewrite andb_true_l, bool_decide_eq_true_2; [done|].
        exact (field_key_in c _ in_channel_field).
      - exact Hch. }
    exists w'. split; [|split; [done|split]].
    + simpl. unfold bind. by rewrite Hrun1.
    + intros c' [->|Hc']%elem_of_cons; [by apply Hfalse|by apply Hno].
    + intros c' Hin Hch.
      assert (Hstep : db_lookup (db w1) (c' +:+ ".channelId") = JNull
                      ∨ has_channel (db w1) c' = true).
      { unfold has_channel.
        rewrite (Hdb1 (c' +:+ ".channelId")), (Hdb1 (c' +:+ ".resourceId")).
        destruct (has_channel (db w) c) eqn:Hc;
          rewrite ?andb_true_l, ?andb_false_l; [|right; exact Hch].
        case_bool_decide as Hk1; [by left|].
        case_bool_decide as Hk2; [|right; exact Hch].
        exfalso. apply Hk1.
        apply list_elem_of_fmap in Hk2 as (f & Heq & Hf).
        apply field_key_inj in Heq as [-> _];
          [|apply in_resource_field|done].
        exact (field_key_in c _ in_channel_field). }
      destruct Hstep as [Hn|Hch1].
      * destruct (Hdb (c' +:+ ".channelId")) as [?|Heq]; [done|].
        by rewrite Heq.
      * apply elem_of_cons in Hin as [->|Hin]; [congruence|].
        by apply Hnull.
Qed.

(** Teardown is idempotent: when the stop RPC answers 204, a first
    [stopWatchRequest] returns normally and leaves no configured calendar
    with a channel to stop, so a second one calls no RPC and changes
    nothing. *)
Theorem deactivate_idempotent (h : host) (this : component) (w : world) :
  (∀ n, stop_resp h n = Some 204) →
  let r := deactivate h this w in
  r.1 = Done tt ∧
  (∀ c, c ∈ calendarIds this → has_channel (db r.2) c = false) ∧
  deactivate h this r.2 = (Done tt, r.2).
Proof.
  intros Hstop r.
  destruct (for_of_stop_204 h (calendarIds this) Hstop w)
    as (w' & Hrun & _ & Hno & _).
  assert (Hr : r = (Done tt, w')) by exact Hrun.
  rewrite Hr. simpl. split; [done|]. split; [done|].
  unfold deactivate, stopWatchRequest.
  clear Hrun Hr r. revert Hno.
  induction (calendarIds this) as [|c l IH]; intros Hno; simpl; [done|].
  unfold bind. rewrite stopWatchRequest_body_skip.
  - apply IH. intros c' Hc'. by apply Hno, list_elem_of_further.
  - apply Hno, list_elem_of_here.
Qed.

Lemma deactivate_idempotent_witness :
  let r := deactivate (renewal_host 0 204) two_calendars (world0 two_store) in
  r.1 = Done tt ∧
  (∀ c, c ∈ ["work"; "home"] → has_channel (db r.2) c = false) ∧
  deactivate (renewal_host 0 204) two_calendars r.2 = (Done tt, r.2).
Proof.
  apply (deactivate_idempotent (renewal_host 0 204) two_calendars
           (world0 two_store)).
  reflexivity.
Defined.

(** Teardown is best effort: when every stop call is answered with a status
    other than 204, [stopWatchRequest] still returns normally and the store
    is left exactly as it was. *)
Theorem deactivate_all_fail (h : host) (this : component) (w : world) :
  (∀ n, ∃ s, stop_resp h n = Some s ∧ s ≠ 204) →
  (deactivate h this w).1 = Done tt ∧ db (deactivate h this w).2 = db w.
Proof.
  intros Hstop. unfold deactivate, stopWatchRequest. revert w.
  induction (calendarIds this) as [|c l IH]; intros w; simpl; [done|].
  unfold bind.
  assert (Hbody : ∃ w1, stopWatchRequest_body h c w = (Done tt, w1)
                        ∧ db w1 = db w).
  { destruct (has_channel (db w) c) eqn:Hch.
    - pose proof Hch as Hch'. unfold has_channel in Hch'.
      apply andb_true_iff in Hch' as [Tid Trid].
      destruct (Hstop (n_stop w)) as (s & Hs & Hne).
      eexists. split.
      + rewrite (stopWatchRequest_body_call h c w _ _ s eq_refl eq_refl
                   Tid Trid Hs).
        rewrite bool_decide_eq_false_2 by done. reflexivity.
      + reflexivity.
    - exists w. split; [by apply stopWatchRequest_body_skip|done]. }
  destruct Hbody as (w1 & -> & Hdb1).
  destruct (IH w1) as [Hd Hdb]. split; [done|]. by rewrite Hdb.
Qed.

Lemma deactivate_all_fail_witness :
  (deactivate (renewal_host 0 500) two_calendars (world0 two_store)).1 = Done tt ∧
  db (deactivate (renewal_host 0 500) two_calendars (world0 two_store)).2
  = two_store.
Proof.
  apply (deactivate_all_fail (renewal_host 0 500) two_calendars
           (world0 two_store)).
  intros n. exists 500. split; [reflexivity|discriminate].
Defined.

(** ** Edges of the notification filter and of the renewal check *)

Lemma run_rejects (h : host) (this : component) (fuel : nat)
    (event : trigger) (w : world) :
  is_tick event = None →
  header event "x-goog-channel-id" ∉ persisted_channelIds this w →
  run h this fuel event w
  = (Done tt,
     record (Log ("Unexpected channel ID "
                  +:+ ToString (header event "x-goog-channel-id")
                  +:+ ". This likely means there are multiple, older subscriptions active."))
            w).
Proof.
  intros Htick Hnot. unfold run. rewrite Htick.
  erewrite bind_Done by apply collect_channelIds_spec.
  rewrite app_nil_l. fold (persisted_channelIds this w).
  by rewrite bool_decide_eq_false_2.
Qed.

(** After a teardown that succeeded for every calendar, every later
    notification that carries a channel id is ignored: the channel ids in
    the store are all [null], so the invocation ends in the
    unexpected-channel log line without listing or emitting anything. *)
Theorem notification_after_teardown (h : host) (this : component) (fuel : nat)
    (event : trigger) (w : world) (channel : string) :
  (∀ n, stop_resp h n = Some 204) →
  (∀ c, c ∈ calendarIds this → has_channel (db w) c = true) →
  is_tick event = None →
  header event "x-goog-channel-id" = JStr channel →
  let w' := (deactivate h this w).2 in
  run h this fuel event w'
  = (Done tt,
     record (Log ("Unexpected channel ID " +:+ channel
                  +:+ ". This likely means there are multiple, older subscriptions active."))
            w').
Proof.
  intros Hstop Hall Htick Hhdr w'.
  destruct (for_of_stop_204 h (calendarIds this) Hstop w)
    as (w1 & Hrun & _ & _ & Hnull).
  assert (Hw' : w' = w1).
  { unfold w', deactivate, stopWatchRequest. by rewrite Hrun. }
  rewrite Hw'. rewrite run_rejects; [by rewrite Hhdr|done|].
  rewrite Hhdr. unfold persisted_channelIds.
  intros (c & Heq & Hc)%list_elem_of_fmap.
  rewrite (Hnull c Hc (Hall c Hc)) in Heq. discriminate.
Qed.

Lemma notification_after_teardown_witness :
  let w' := (deactivate (renewal_host 0 204) two_calendars (world0 two_store)).2 in
  run (renewal_host 0 204) two_calendars 5 (notification "ch-home" "exists") w'
  = (Done tt,
     record (Log ("Unexpected channel ID " +:+ "ch-home"
                  +:+ ". This likely means there are multiple, older subscriptions active."))
            w').
Proof.
  apply (notification_after_teardown (renewal_host 0 204) two_calendars 5
           (notification "ch-home" "exists") (world0 two_store) "ch-home").
  - reflexivity.
  - intros c Hc.
    repeat (apply elem_of_cons in Hc as [->|Hc]; [vm_compute; reflexivity|]).
    by apply elem_of_nil in Hc.
  - reflexivity.
  - reflexivity.
Defined.

(** A notification without a channel-id header passes the channel check
    exactly when some configured calendar has no channel id in the store:
    the missing header and the missing key both read as [undefined].  With
    resource state ["exists"] such a notification starts the fetch; when
    every configured calendar has a channel id (or there is no calendar at
    all) it is ignored. *)
Theorem notification_without_channel_id (h : host) (this : component)
    (fuel : nat) (event : trigger) (w : world) :
  is_tick event = None →
  header event "x-goog-channel-id" = JUndef →
  ((∃ c, c ∈ calendarIds this ∧ db w !! (c +:+ ".channelId") = None) →
   header event "x-goog-resource-state" = JStr "exists" →
   run h this fuel event w = fetch_and_emit h this fuel w) ∧
  ((∀ c, c ∈ calendarIds this →
         db_lookup (db w) (c +:+ ".channelId") ≠ JUndef) →
   run h this fuel event w
   = (Done tt,
      record (Log "Unexpected channel ID undefined. This likely means there are multiple, older subscriptions active.")
             w)).
Proof.
  intros Htick Hhdr. split.
  - intros (c & Hc & Hnone) Hstate.
    rewrite run_known_channel; [simpl; by rewrite Hstate|done|].
    rewrite Hhdr. unfold persisted_channelIds.
    apply list_elem_of_fmap. exists c. split; [|done].
    unfold db_lookup. by rewrite Hnone.
  - intros Hall. rewrite run_rejects; [by rewrite Hhdr|done|].
    rewrite Hhdr. unfold persisted_channelIds.
    intros (c & Heq & Hc)%list_elem_of_fmap. by apply (Hall c Hc).
Qed.

Lemma notification_without_channel_id_witness :
  let event := {| interval_seconds := None;
                  headers := Some {["x-goog-resource-state" := JStr "exists"]} |} in
  run (feed_host two_feed) two_calendars 5 event (world0 watched_store)
  = fetch_and_emit (feed_host two_feed) two_calendars 5 (world0 watched_store) ∧
  run (feed_host two_feed) two_calendars 5 event (world0 two_store)
  = (Done tt,
     record (Log "Unexpected channel ID undefined. This likely means there are multiple, older subscriptions active.")
            (world0 two_store)).
Proof.
  intros event. split.
  - apply (proj1 (notification_without_channel_id (feed_host two_feed)
                    two_calendars 5 event (world0 watched_store)
                    eq_refl eq_refl)).
    + exists "work". split; [apply list_elem_of_here|reflexivity].
    + reflexivity.
  - apply (proj2 (notification_without_channel_id (feed_host two_feed)
                    two_calendars 5 event (world0 two_store)
                    eq_refl eq_refl)).
    intros c Hc.
    repeat (apply elem_of_cons in Hc as [->|Hc]; [vm_compute; discriminate|]).
    by apply elem_of_nil in Hc.
Defined.

(** A timer tick renews nothing, whatever the clock and the interval, when
    the first calendar's expiration is missing from the store, [null] or the
    empty string: it parses to [NaN], and no comparison with [NaN] holds. So
    a component that was never activated, or whose state a teardown has
    cleared, is not brought back by the timer. *)
Theorem tick_without_expiration (h : host) (this : component) (fuel : nat)
    (event : trigger) (w : world) (secs : Z) :
  is_tick event = Some secs →
  db_lookup (db w) (first_calendarId this +:+ ".expiration")
    ∈ [JUndef; JNull; JStr ""] →
  run h this fuel event w = (Done tt, w).
Proof.
  intros Htick Hexp. rewrite (run_tick _ _ _ _ _ secs Htick).
  repeat (apply elem_of_cons in Hexp as [-> | Hexp]; [reflexivity|]).
  by apply elem_of_nil in Hexp.
Qed.

Lemma tick_without_expiration_witness :
  run (renewal_host 1800000000000 204) (one_calendar false) 0
      (timer_tick 82800) (world0 ∅)
  = (Done tt, world0 ∅).
Proof.
  apply (tick_without_expiration (renewal_host 1800000000000 204)
           (one_calendar false) 0 (timer_tick 82800) (world0 ∅) 82800).
  - reflexivity.
  - apply list_elem_of_here.
Defined.

(** ** Activation *)

Lemma makeWatchRequest_body_ok (h : host) (c : string) (w : world)
    (data : watch_data) (tok : jsval) :
  watch_resp h (n_watch w) = Some data →
  fullSync_resp h (n_fullSync w) = Some tok →
  ∃ w1, makeWatchRequest_body h c w = (Done tt, w1) ∧
        n_watch w1 = S (n_watch w) ∧ n_fullSync w1 = S (n_fullSync w) ∧
        db w1 = <[c +:+ ".expiration" := wd_expiration data]>
                  (<[c +:+ ".resourceId" := wd_resourceId data]>
                     (<[c +:+ ".channelId" := wd_id data]>
                        (<[c +:+ ".nextSyncToken" := tok]> (db w)))).
Proof.
  intros Hwatch Hfull. eexists. split.
  - unfold makeWatchRequest_body, bind, new_uuid, googleCalendar_watch,
      googleCalendar_fullSync. simpl. rewrite Hwatch. simpl.
    rewrite Hfull. reflexivity.
  - done.
Qed.

Lemma lookup_set_fields (store : gmap string jsval) (c : string)
    (tok chan res exp : jsval) :
  let store' := <[c +:+ ".expiration" := exp]>
                  (<[c +:+ ".resourceId" := res]>
                     (<[c +:+ ".channelId" := chan]>
                        (<[c +:+ ".nextSyncToken" := tok]> store))) in
  db_lookup store' (c +:+ ".nextSyncToken") = tok ∧
  db_lookup store' (c +:+ ".channelId") = chan ∧
  db_lookup store' (c +:+ ".resourceId") = res ∧
  db_lookup store' (c +:+ ".expiration") = exp ∧
  (∀ key, ¬ calendar_key [c] key → store' !! key = store !! key).
Proof.
  intros store'. unfold store', db_lookup. repeat split.
  - rewrite !lookup_insert_ne by (by apply key_field_ne).
    by rewrite lookup_insert_eq.
  - rewrite !lookup_insert_ne by (by apply key_field_ne).
    by rewrite lookup_insert_eq.
  - rewrite !lookup_insert_ne by (by apply key_field_ne).
    by rewrite lookup_insert_eq.
  - by rewrite lookup_insert_eq.
  - intros key Hkey.
    rewrite !lookup_insert_ne; [done|..]; intros <-; apply Hkey;
      eexists c, _; (split; [apply list_elem_of_here|]);
      (split; [|reflexivity]);
      auto using in_token_field, in_channel_field, in_resource_field,
        in_expiration_field.
Qed.

Lemma for_of_makeWatchRequest_ok (h : host) (l : list string) :
  NoDup l →
  ∀ (w : world) (wds : nat → watch_data) (toks : nat → jsval),
    (∀ i, (i < length l)%nat → watch_resp h (n_watch w + i) = Some (wds i)) →
    (∀ i, (i < length l)%nat → fullSync_resp h (n_fullSync w + i) = Some (toks i)) →
    ∃ w', for_of l (makeWatchRequest_body h) w = (Done tt, w') ∧
          (∀ key, ¬ calendar_key l key → db w' !! key = db w !! key) ∧
          ∀ i c, l !! i = Some c →
            db_lookup (db w') (c +:+ ".nextSyncToken") = toks i ∧
            db_lookup (db w') (c +:+ ".channelId") = wd_id (wds i) ∧
            db_lookup (db w') (c +:+ ".resourceId") = wd_resourceId (wds i) ∧
            db_lookup (db w') (c +:+ ".expiration") = wd_expiration (wds i).
Proof.
  induction 1 as [|c l Hnotin Hnodup IH]; intros w wds toks Hw Hf.
  - exists w. split; [done|]. split; [done|]. by intros i c Hi.
  - destruct (makeWatchRequest_body_ok h c w (wds 0%nat) (toks 0%nat))
      as (w1 & Hrun1 & Hnw & Hnf & Hdb1).
    { rewrite <- (Nat.add_0_r (n_watch w)). apply Hw. simpl. lia. }
    { rewrite <- (Nat.add_0_r (n_fullSync w)). apply Hf. simpl. lia. }
    destruct (IH w1 (λ i, wds (S i)) (λ i, toks (S i)))
      as (w' & Hrun & Hframe & Hfields).
    { intros i Hi. rewrite Hnw. simpl. rewrite <- Nat.add_succ_r.
      apply Hw. simpl. lia. }
    { intros i Hi. rewrite Hnf. simpl. rewrite <- Nat.add_succ_r.
      apply Hf. simpl. lia. }
    pose proof (lookup_set_fields (db w) c (toks 0%nat) (wd_id (wds 0%nat))
                  (wd_resourceId (wds 0%nat)) (wd_expiration (wds 0%nat)))
      as Hset. simpl in Hset. rewrite <- Hdb1 in Hset.
    destruct Hset as (Ht & Hc & Hr & He & Hother).
    assert (Hmine : ∀ f, f ∈ calendar_fields → ¬ calendar_key l (c +:+ f)).
    { intros f Hf' (c' & g & Hc' & Hg & Heq).
      apply field_key_inj in Heq as [-> _]; [|done..]. by apply Hnotin. }
    exists w'. split; [|split].
    + simpl. unfold bind. by rewrite Hrun1.
    + intros key Hkey. rewrite Hframe, Hother; [done|..].
      * intros (c' & f & Hc' & Hf' & ->). apply Hkey.
        apply list_elem_of_singleton in Hc' as ->.
        exists c, f. split; [apply list_elem_of_here|done].
      * intros (c' & f & Hc' & Hf' & ->). apply Hkey.
        exists c', f. split; [by apply list_elem_of_further|done].
    + intros [|i] c' Hi; simpl in Hi.
      * injection Hi as <-. unfold db_lookup in *.
        rewrite !Hframe by auto using in_token_field, in_channel_field,
          in_resource_field, in_expiration_field.
        done.
      * by apply (Hfields i c').
Qed.

(** Activation persists the state of every calendar: when the configured
    calendar ids are pairwise distinct and the watch and full-sync calls
    succeed, [makeWatchRequest] returns normally, the four fields of the i-th
    calendar hold the sync token of the i-th full sync and the id, resource
    id and expiration of the i-th watch response, and no other key of the
    store is touched. *)
Theorem activate_persists (h : host) (this : component) (w : world)
    (wds : nat → watch_data) (toks : nat → jsval) :
  NoDup (calendarIds this) →
  (∀ i, (i < length (calendarIds this))%nat →
        watch_resp h (n_watch w + i) = Some (wds i)) →
  (∀ i, (i < length (calendarIds this))%nat →
        fullSync_resp h (n_fullSync w + i) = Some (toks i)) →
  let r := activate h this w in
  r.1 = Done tt ∧
  (∀ key, ¬ calendar_key (calendarIds this) key → db r.2 !! key = db w !! key) ∧
  ∀ i c, calendarIds this !! i = Some c →
    db_lookup (db r.2) (c +:+ ".nextSyncToken") = toks i ∧
    db_lookup (db r.2) (c +:+ ".channelId") = wd_id (wds i) ∧
    db_lookup (db r.2) (c +:+ ".resourceId") = wd_resourceId (wds i) ∧
    db_lookup (db r.2) (c +:+ ".expiration") = wd_expiration (wds i).
Proof.
  intros Hnodup Hw Hf r.
  destruct (for_of_makeWatchRequest_ok h (calendarIds this) Hnodup w wds toks
              Hw Hf) as (w' & Hrun & Hframe & Hfields).
  assert (Hr : r = (Done tt, w')) by exact Hrun.
  by rewrite Hr.
Qed.

Lemma activate_persists_witness :
  let r := activate partial_stop_host two_calendars (world0 ∅) in
  r.1 = Done tt ∧
  db_lookup (db r.2) "home.channelId" = JStr "ch-1" ∧
  db_lookup (db r.2) "work.nextSyncToken" = JStr "tok-0".
Proof.
  intros r.
  destruct (activate_persists partial_stop_host two_calendars (world0 ∅)
              (λ n, {| wd_id := JStr ("ch-" +:+ pretty (Z.of_nat n));
                       wd_resourceId := JStr ("res-" +:+ pretty (Z.of_nat n));
                       wd_expiration := JStr "1700600000000" |})
              (λ n, JStr ("tok-" +:+ pretty (Z.of_nat n))))
    as (Hdone & _ & Hfields).
  - repeat constructor; [|by intros ?%elem_of_nil].
    intros Hin. apply list_elem_of_singleton in Hin. discriminate.
  - by intros.
  - by intros.
  - split; [exact Hdone|]. split.
    + exact (proj1 (proj2 (Hfields 1%nat "home" eq_refl))).
    + exact (proj1 (Hfields 0%nat "work" eq_refl)).
Defined.

(** Activation stops at the first rejected call. When the watch call for
    the first calendar succeeds but the full sync that follows it is
    rejected, [makeWatchRequest] throws with the store unchanged: the channel
    has been registered remotely, yet neither its id nor its resource id is
    persisted, and no further calendar is visited. *)
Theorem activate_fullSync_rejected (h : host) (this : component) (w : world)
    (c : string) (rest : list string) (data : watch_data) :
  calendarIds this = c :: rest →
  watch_resp h (n_watch w) = Some data →
  fullSync_resp h (n_fullSync w) = None →
  let r := activate h this w in
  r.1 = Thrown ∧ db r.2 = db w ∧
  continues w r.2
    [ CallWatch c (JStr (uuid h (n_uuid w))) (endpoint h);
      CallFullSync (JStr c) ].
Proof.
  intros Hids Hwatch Hfull r.
  unfold r, activate, makeWatchRequest. rewrite Hids. simpl.
  unfold bind, makeWatchRequest_body, bind, new_uuid, googleCalendar_watch,
    googleCalendar_fullSync. simpl. rewrite Hwatch. simpl. rewrite Hfull.
  simpl. split; [done|]. split; [done|].
  unfold continues. simpl. by rewrite <- app_assoc.
Qed.

Lemma activate_fullSync_rejected_witness :
  let h := feed_host [] in
  let h' := {| Date_parse := Date_parse h; clock := clock h;
               endpoint := endpoint h; uuid := uuid h;
               watch_resp := watch_resp h; fullSync_resp := λ _, None;
               stop_resp := stop_resp h; list_resp := list_resp h |} in
  (activate h' two_calendars (world0 ∅)).1 = Thrown ∧
  db (activate h' two_calendars (world0 ∅)).2 = ∅.
Proof.
  intros h h'.
  destruct (activate_fullSync_rejected h' two_calendars (world0 ∅) "work"
              ["home"] _ eq_refl eq_refl eq_refl) as (H1 & H2 & _).
  by split.
Defined.

(** ** A whole feed *)

Lemma fetch_loop_pages (h : host) (this : component) (c : string) (tok : jsval)
    (last : list_response) (pages : list list_response) :
  lr_status last ≠ 410 →
  truthy (ld_nextSyncToken (response_data last)) = true →
  Forall (λ r, ends_pagination r = false) pages →
  ∀ (w : world) (nst npt : jsval) (fuel : nat),
    truthy nst = false →
    (∀ i r, (pages ++ [last]) !! i = Some r →
            list_resp h (n_list w + i) = Some r) →
    (length pages < fuel)%nat →
    ∃ w', fetch_loop h this fuel c tok nst npt w
          = (Done (ld_nextSyncToken (response_data last)), w') ∧
          db w' = db w ∧
          n_list w' = (n_list w + S (length pages))%nat ∧
          trace w' = trace w ++ feed_trace h this c tok npt (pages ++ [last]).
Proof.
  intros Hlast Htok Hpages. induction Hpages as [|r pages Hr Hpages IH];
    intros w nst npt fuel Hnst Hresp Hfuel;
    (destruct fuel as [|fuel]; [simpl in Hfuel; lia|]).
  - assert (H0 : list_resp h (n_list w) = Some last).
    { rewrite <- (Nat.add_0_r (n_list w)). by apply Hresp. }
    rewrite (fetch_loop_step_page _ _ _ _ _ _ _ _ last) by done.
    rewrite fetch_loop_truthy by done.
    eexists. split; [reflexivity|]. split; [done|]. split.
    + simpl. lia.
    + simpl. unfold response_data. by rewrite app_nil_r, <- app_assoc.
  - assert (H0 : list_resp h (n_list w) = Some r).
    { rewrite <- (Nat.add_0_r (n_list w)). by apply Hresp. }
    unfold ends_pagination in Hr. apply orb_false_iff in Hr as [H410 Hfalsy].
    apply bool_decide_eq_false in H410.
    rewrite (fetch_loop_step_page _ _ _ _ _ _ _ _ r) by done.
    edestruct (IH (record_all (page_effects h this
                     (ld_items (default empty_data (lr_data r))))
                     (tick_list (record (CallList c tok npt) w)))
                  (ld_nextSyncToken (default empty_data (lr_data r)))
                  (ld_nextPageToken (default empty_data (lr_data r))) fuel)
      as (w' & Hrun & Hdb & Hn & Htrace); [exact Hfalsy| |simpl in Hfuel; lia|].
    { intros i r' Hi. simpl. rewrite <- Nat.add_succ_r. by apply Hresp. }
    exists w'. split; [exact Hrun|]. split; [by rewrite Hdb|]. split.
    + rewrite Hn. simpl. lia.
    + rewrite Htrace. simpl. unfold response_data.
      by rewrite <- !app_assoc.
Qed.

(** A feed read to its end: when the [list] RPC answers with pages that do
    not end the pagination and then with a final page carrying a sync token,
    the fetch of one calendar returns normally after exactly one request per
    page; each request carries the stored sync token and the
    [nextPageToken] of the page before it, the pages' events are processed
    in page order, and the final page's [nextSyncToken] replaces the
    calendar's sync token. *)
Theorem fetch_calendar_pages (h : host) (this : component) (c : string)
    (w : world) (pages : list list_response) (last : list_response)
    (fuel : nat) :
  (∀ i r, (pages ++ [last]) !! i = Some r →
          list_resp h (n_list w + i) = Some r) →
  Forall (λ r, ends_pagination r = false) pages →
  lr_status last ≠ 410 →
  truthy (ld_nextSyncToken (response_data last)) = true →
  (length pages < fuel)%nat →
  let r := fetch_calendar h this fuel c w in
  let key := c +:+ ".nextSyncToken" in
  r.1 = Done tt ∧
  db r.2 = <[key := ld_nextSyncToken (response_data last)]> (db w) ∧
  n_list r.2 = (n_list w + S (length pages))%nat ∧
  continues w r.2
    (feed_trace h this c (db_lookup (db w) key) JNull (pages ++ [last])
     ++ [DbSet key (ld_nextSyncToken (response_data last))]).
Proof.
  intros Hresp Hpages Hlast Htok Hfuel r key.
  destruct (fetch_loop_pages h this c (db_lookup (db w) key) last pages
              Hlast Htok Hpages w JNull JNull fuel eq_refl Hresp Hfuel)
    as (w' & Hrun & Hdb & Hn & Htrace).
  unfold r, fetch_calendar, bind, db_get. fold key. rewrite Hrun. simpl.
  split; [reflexivity|]. split; [rewrite Hdb; reflexivity|].
  split; [exact Hn|].
  unfold continues. simpl. rewrite Htrace, <- app_assoc. reflexivity.
Qed.

Lemma fetch_calendar_pages_witness :
  let h := feed_host two_feed in
  let r := fetch_calendar h two_calendars 5 "work" (world0 two_store) in
  r.1 = Done tt ∧
  db r.2 = <["work.nextSyncToken" := JStr "work-1"]> two_store ∧
  n_list r.2 = 2%nat ∧
  continues (world0 two_store) r.2
    [ CallList "work" (JStr "work-0") JNull;
      Emit ev_a (generateMeta h ev_a);
      CallList "work" (JStr "work-0") (JStr "p2");
      Emit ev_b (generateMeta h ev_b);
      DbSet "work.nextSyncToken" (JStr "work-1") ].
Proof.
  intros h.
  apply (fetch_calendar_pages h two_calendars "work" (world0 two_store)
           [ {| lr_status := 200;
                lr_data := Some {| ld_nextPageToken := JStr "p2";
                                   ld_nextSyncToken := JUndef;
                                   ld_items := [ev_a] |} |} ]
           {| lr_status := 200;
              lr_data := Some {| ld_nextPageToken := JUndef;
                                 ld_nextSyncToken := JStr "work-1";
                                 ld_items := [ev_b] |} |} 5).
  - intros [|[|i]] r Hi; simpl in Hi; try discriminate;
      injection Hi as <-; reflexivity.
  - by repeat constructor.
  - discriminate.
  - reflexivity.
  - simpl. lia.
Defined.

(** A 410 answer: the items the response may carry are not emitted, the
    resync is requested, and whatever the resync returns, be it a token or
    [null] or [undefined], is written as the calendar's sync token. *)
Theorem fetch_calendar_invalidated (h : host) (this : component) (fuel : nat)
    (c : string) (w : world) (r : list_response) (v : jsval) :
  list_resp h (n_list w) = Some r → lr_status r = 410 →
  fullSync_resp h (n_fullSync w) = Some v →
  let key := c +:+ ".nextSyncToken" in
  let res := fetch_calendar h this (S fuel) c w in
  res.1 = Done tt ∧
  db res.2 = <[key := v]> (db w) ∧
  continues w res.2
    [ CallList c (db_lookup (db w) key) JNull;
      Log "Sync token invalid, resyncing";
      CallFullSync JUndef;
      DbSet key v ].
Proof.
  intros Hr Hs Hv key res. unfold res, fetch_calendar, bind, db_get.
  fold key. rewrite (fetch_loop_step_410 _ _ _ _ _ _ _ _ r) by done.
  rewrite Hv. simpl. split; [done|]. split; [done|].
  unfold continues. simpl. by rewrite <- !app_assoc.
Qed.

Lemma fetch_calendar_invalidated_witness :
  let h := feed_host [ Some {| lr_status := 410;
                               lr_data := Some {| ld_nextPageToken := JUndef;
                                                  ld_nextSyncToken := JStr "t";
                                                  ld_items := [ev_a] |} |} ] in
  let res := fetch_calendar h (one_calendar false) 1 "cal" (world0 watched_store) in
  res.1 = Done tt ∧
  db res.2 = <["cal.nextSyncToken" := JStr "tok-resync"]> watched_store ∧
  continues (world0 watched_store) res.2
    [ CallList "cal" (JStr "tok0") JNull;
      Log "Sync token invalid, resyncing";
      CallFullSync JUndef;
      DbSet "cal.nextSyncToken" (JStr "tok-resync") ].
Proof.
  intros h.
  apply (fetch_calendar_invalidated h (one_calendar false) 0 "cal"
           (world0 watched_store) _ (JStr "tok-resync") eq_refl eq_refl eq_refl).
Defined.

Lemma fetch_loop_diverges_witness :
  (fetch_loop stuck_host (one_calendar false) 50 "cal" (JStr "tok0")
     JNull JNull (world0 watched_store)).1 = OutOfFuel.
Proof.
  apply (fetch_loop_diverges stuck_host (one_calendar false) "cal" (JStr "tok0")).
  - intros n. eexists. split; reflexivity.
  - reflexivity.
Defined.

(** A rejected [list] call aborts the whole invocation: [run] throws at
    the first calendar, with the store as it was and without visiting the
    calendars after it. *)
Theorem notification_list_rejected (h : host) (this : component) (fuel : nat)
    (event : trigger) (w : world) (c : string) (rest : list string) :
  is_tick event = None →
  header event "x-goog-channel-id" ∈ persisted_channelIds this w →
  header event "x-goog-resource-state" = JStr "exists" →
  calendarIds this = c :: rest →
  list_resp h (n_list w) = None →
  run h this (S fuel) event w
  = (Thrown,
     tick_list (record (CallList c (db_lookup (db w) (c +:+ ".nextSyncToken"))
                                 JNull) w)).
Proof.
  intros Htick Hin Hstate Hids Hnone.
  rewrite run_known_channel by done. simpl. rewrite Hstate. simpl.
  unfold fetch_and_emit. rewrite Hids. simpl.
  unfold bind at 1, fetch_calendar, bind, db_get.
  by rewrite fetch_loop_step_throw.
Qed.

Lemma notification_list_rejected_witness :
  run (renewal_host 0 204) two_calendars 1 (notification "ch-work" "exists")
      (world0 two_store)
  = (Thrown,
     tick_list (record (CallList "work" (JStr "work-0") JNull) (world0 two_store))).
Proof.
  apply (notification_list_rejected (renewal_host 0 204) two_calendars 0
           (notification "ch-work" "exists") (world0 two_store) "work" ["home"]).
  - reflexivity.
  - vm_compute. apply list_elem_of_here.
  - reflexivity.
  - reflexivity.
  - reflexivity.
Defined.

(** ** Renewal, in general *)

Lemma renewal_single_calendar_witness :
  let h := renewal_host (1700000000000 - 82800000 + 1) 204 in
  let r := bind (makeWatchRequest h (one_calendar false))
                (λ _, stopWatchRequest h (one_calendar false))
                (world0 watched_store) in
  r.1 = Done tt ∧
  (∃ pre post, continues (world0 watched_store) r.2
     (pre ++ CallStop (JStr "new-ch") (JStr "new-res") :: post) ∧
     ∀ id rid, CallStop id rid ∈ pre ++ post → False) ∧
  (∀ f, f ∈ calendar_fields → db r.2 !! ("cal" +:+ f) = Some JNull).
Proof.
  intros h.
  apply (renewal_single_calendar h (one_calendar false) "cal"
           (world0 watched_store)
           {| wd_id := JStr "new-ch"; wd_resourceId := JStr "new-res";
              wd_expiration := JStr "1700600000000" |} (JStr "tok1"));
    reflexivity.
Defined.

(** The renewal of a single calendar whose stop call is answered with a
    status other than 204: the stop request is still made for the channel
    just established, the invocation returns normally, and the store keeps
    the new channel's sync token, id, resource id and expiration. *)
Theorem renewal_stop_fails (h : host) (this : component) (c : string)
    (w : world) (data : watch_data) (tok : jsval) (status : Z) :
  calendarIds this = [c] →
  watch_resp h (n_watch w) = Some data →
  fullSync_resp h (n_fullSync w) = Some tok →
  truthy (wd_id data) = true → truthy (wd_resourceId data) = true →
  stop_resp h (n_stop w) = Some status → status ≠ 204 →
  let r := bind (makeWatchRequest h this) (λ _, stopWatchRequest h this) w in
  r.1 = Done tt ∧
  continues w r.2
    [ CallWatch c (JStr (uuid h (n_uuid w))) (endpoint h);
      CallFullSync (JStr c);
      DbSet (c +:+ ".nextSyncToken") tok;
      DbSet (c +:+ ".channelId") (wd_id data);
      DbSet (c +:+ ".resourceId") (wd_resourceId data);
      DbSet (c +:+ ".expiration") (wd_expiration data);
      CallStop (wd_id data) (wd_resourceId data);
      Log "There was a problem deactivating the webhook" ] ∧
  db_lookup (db r.2) (c +:+ ".nextSyncToken") = tok ∧
  db_lookup (db r.2) (c +:+ ".channelId") = wd_id data ∧
  db_lookup (db r.2) (c +:+ ".resourceId") = wd_resourceId data ∧
  db_lookup (db r.2) (c +:+ ".expiration") = wd_expiration data.
Proof.
  intros Hids Hwatch Hfull Tid Trid Hstop Hne r.
  set (w1 :=
    record (DbSet (c +:+ ".expiration") (wd_expiration data))
      (with_db (insert (c +:+ ".expiration") (wd_expiration data))
    (record (DbSet (c +:+ ".resourceId") (wd_resourceId data))
      (with_db (insert (c +:+ ".resourceId") (wd_resourceId data))
    (record (DbSet (c +:+ ".channelId") (wd_id data))
      (with_db (insert (c +:+ ".channelId") (wd_id data))
    (record (DbSet (c +:+ ".nextSyncToken") tok)
      (with_db (insert (c +:+ ".nextSyncToken") tok)
    (tick_fullSync (record (CallFullSync (JStr c))
    (tick_watch (record (CallWatch c (JStr (uuid h (n_uuid w))) (endpoint h))
    (tick_uuid w))))))))))))).
  assert (Hmake : makeWatchRequest h this w = (Done tt, w1)).
  { unfold makeWatchRequest. rewrite Hids. simpl.
    unfold makeWatchRequest_body, bind, new_uuid, googleCalendar_watch,
      googleCalendar_fullSync. simpl. rewrite Hwatch. simpl.
    rewrite Hfull. reflexivity. }
  assert (Hstopw : stopWatchRequest h this w1
                   = bind (stopWatchRequest_body h c) (λ _, ret tt) w1).
  { unfold stopWatchRequest. by rewrite Hids. }
  assert (Hr : r = bind (stopWatchRequest_body h c) (λ _, ret tt) w1).
  { unfold r. rewrite (bind_Done _ _ _ _ _ Hmake). exact Hstopw. }
  pose proof (lookup_set_fields (db w) c tok (wd_id data) (wd_resourceId data)
                (wd_expiration data)) as Hset. simpl in Hset.
  destruct Hset as (Ht & Hc & Hres & He & _).
  rewrite Hr. unfold bind.
  rewrite (stopWatchRequest_body_call h c w1 (wd_id data) (wd_resourceId data)
             status); [|exact Hc|exact Hres|done|done|done].
  rewrite bool_decide_eq_false_2 by done. simpl.
  split; [done|]. split.
  - unfold continues. simpl. rewrite <- !app_assoc. reflexivity.
  - done.
Qed.

Lemma renewal_stop_fails_witness :
  let h := renewal_host (1700000000000 - 82800000 + 1) 500 in
  let r := bind (makeWatchRequest h (one_calendar false))
                (λ _, stopWatchRequest h (one_calendar false))
                (world0 watched_store) in
  r.1 = Done tt ∧
  db_lookup (db r.2) "cal.channelId" = JStr "new-ch" ∧
  db_lookup (db r.2) "cal.expiration" = JStr "1700600000000".
Proof.
  intros h.
  destruct (renewal_stop_fails h (one_calendar false) "cal"
              (world0 watched_store)
              {| wd_id := JStr "new-ch"; wd_resourceId := JStr "new-res";
                 wd_expiration := JStr "1700600000000" |} (JStr "tok1") 500)
    as (Hd & _ & _ & Hc & _ & He); try reflexivity; [discriminate|].
  by split.
Defined.

(** ** Reading back a decimal expiration *)

Lemma is_digit_cases (a : ascii) :
  is_digit a = true →
  a ∈ ["0"; "1"; "2"; "3"; "4"; "5"; "6"; "7"; "8"; "9"]%char.
Proof.
  destruct a as [[] [] [] [] [] [] [] []]; intros H; vm_compute in H;
    try discriminate H;
    repeat first [apply list_elem_of_here | apply list_elem_of_further].
Qed.

Lemma pretty_N_char_digit (d : N) :
  (d < 10)%N →
  is_digit (pretty_N_char d) = true ∧
  digit_val 10 (pretty_N_char d) = Some (Z.of_N d).
Proof.
  intros Hd.
  assert (d = 0 ∨ d = 1 ∨ d = 2 ∨ d = 3 ∨ d = 4 ∨ d = 5 ∨ d = 6 ∨ d = 7
          ∨ d = 8 ∨ d = 9)%N as Hcases by lia.
  repeat (destruct Hcases as [-> | Hcases]; [by split|]).
  subst d. by split.
Qed.

Lemma pretty_N_go_digits (x : N) (s : string) :
  all_digits s = true → all_digits (pretty_N_go x s) = true.
Proof.
  revert s. induction (N.lt_wf_0 x) as [x _ IH]; intros s Hs.
  destruct (decide (x = 0%N)) as [->|Hx].
  - by rewrite pretty_N_go_0.
  - rewrite pretty_N_go_step by lia. apply IH.
    + apply N.div_lt; lia.
    + simpl. rewrite Hs, andb_true_r.
      apply pretty_N_char_digit, N.mod_lt. lia.
Qed.

Lemma parse_digits_pretty_N_go (x : N) :
  ∃ p : Z, ∀ (s : string) (a : option Z),
    parse_digits 10 (pretty_N_go x s) a
    = parse_digits 10 s (if decide (x = 0%N) then a
                         else Some (default 0 a * p + Z.of_N x)).
Proof.
  induction (N.lt_wf_0 x) as [x _ IH].
  destruct (decide (x = 0%N)) as [->|Hx].
  - exists 1. intros s a. by rewrite pretty_N_go_0.
  - destruct (IH (x `div` 10)%N) as [p Hp]; [apply N.div_lt; lia|].
    exists (if decide ((x `div` 10)%N = 0%N) then 10 else p * 10).
    intros s a. rewrite pretty_N_go_step by lia. rewrite Hp. simpl.
    destruct (pretty_N_char_digit (x `mod` 10)%N) as [_ ->];
      [apply N.mod_lt; lia|].
    f_equal. f_equal.
    pose proof (N.div_mod x 10 ltac:(lia)) as Hdm.
    assert (Hz : Z.of_N x = 10 * Z.of_N (x `div` 10) + Z.of_N (x `mod` 10)) by lia.
    destruct (decide ((x `div` 10)%N = 0%N)) as [H0|H0]; simpl.
    + rewrite H0 in Hz. lia.
    + lia.
Qed.

Lemma parseInt_string_digits (s : string) :
  all_digits s = true →
  parseInt_string s = Z.mul 1 <$> parse_digits 10 s None.
Proof.
  destruct s as [|a r]; [done|]. simpl. intros [Ha Hr]%andb_true_iff.
  apply is_digit_cases in Ha.
  repeat (apply elem_of_cons in Ha as [-> | Ha]);
    [..|by apply elem_of_nil in Ha];
    (destruct r as [|b1 [|b2 r3]]; [reflexivity|..]);
    try reflexivity;
    simpl in Hr; apply andb_true_iff in Hr as [Hb Hr];
    apply is_digit_cases in Hb;
    (repeat (apply elem_of_cons in Hb as [-> | Hb]);
       [..|by apply elem_of_nil in Hb]);
    reflexivity.
Qed.

Lemma parseInt_string_minus (s : string) :
  all_digits s = true →
  parseInt_string (String "-" s) = Z.mul (-1) <$> parse_digits 10 s None.
Proof.
  destruct s as [|a r]; [done|]. simpl. intros [Ha Hr]%andb_true_iff.
  apply is_digit_cases in Ha.
  repeat (apply elem_of_cons in Ha as [-> | Ha]);
    [..|by apply elem_of_nil in Ha];
    (destruct r as [|b1 r3]; [reflexivity|]);
    try reflexivity;
    simpl in Hr; apply andb_true_iff in Hr as [Hb Hr];
    apply is_digit_cases in Hb;
    (repeat (apply elem_of_cons in Hb as [-> | Hb]);
       [..|by apply elem_of_nil in Hb]);
    reflexivity.
Qed.

Lemma parse_digits_pretty_positive (p : positive) :
  all_digits (pretty_N_go (N.pos p) "") = true ∧
  parse_digits 10 (pretty_N_go (N.pos p) "") None = Some (Z.pos p).
Proof.
  split; [by apply pretty_N_go_digits|].
  destruct (parse_digits_pretty_N_go (N.pos p)) as [q Hq].
  rewrite Hq. simpl. f_equal; lia.
Qed.

(** In the model [parseInt] reads back the decimal digits of an integer.
    JavaScript agrees for integers below 2^53 in magnitude, which covers
    every time value a Date accepts; this is the only range the lemma is
    used for. *)
Lemma parseInt_pretty_Z (z : Z) : parseInt (JStr (pretty z)) = Some z.
Proof.
  unfold parseInt. simpl. destruct z as [|p|p].
  - reflexivity.
  - destruct (parse_digits_pretty_positive p) as [Hd Hp].
    change (pretty (Z.pos p)) with (pretty_N_go (N.pos p) "").
    rewrite parseInt_string_digits, Hp by done. simpl. f_equal; lia.
  - destruct (parse_digits_pretty_positive p) as [Hd Hp].
    change (pretty (Z.neg p)) with (String "-" (pretty_N_go (N.pos p) "")).
    rewrite parseInt_string_minus, Hp by done. simpl. f_equal; lia.
Qed.

(** The renewal check on a decimal expiration: when the first calendar's
    persisted expiration is the decimal rendering of a time [T] in the range
    of a Date, a timer tick at [now] with interval [secs] does nothing while
    [now + secs * 1000 <= T], and runs [makeWatchRequest] followed by
    [stopWatchRequest] as soon as [now + secs * 1000 > T]. *)
Theorem tick_renews_iff_expiring (h : host) (this : component) (fuel : nat)
    (event : trigger) (w : world) (secs T : Z) :
  is_tick event = Some secs →
  db_lookup (db w) (first_calendarId this +:+ ".expiration")
  = JStr (Number_toString (Some T)) →
  Z.abs T <= 8640000000000000 →
  (clock h + secs * 1000 <= T → run h this fuel event w = (Done tt, w)) ∧
  (clock h + secs * 1000 > T →
   run h this fuel event w
   = bind (makeWatchRequest h this) (λ _, stopWatchRequest h this) w).
Proof.
  intros Htick Hexp Hrange.
  apply (run_tick_threshold h this fuel event w secs T Htick).
  rewrite Hexp. unfold Number_toString. rewrite parseInt_pretty_Z. simpl.
  by rewrite bool_decide_eq_true_2.
Qed.

Lemma tick_renews_iff_expiring_witness :
  run (renewal_host (1700000000000 - 82800000) 204) (one_calendar false) 0
      (timer_tick 82800) (world0 watched_store)
  = (Done tt, world0 watched_store).
Proof.
  apply (proj1 (tick_renews_iff_expiring
                  (renewal_host (1700000000000 - 82800000) 204)
                  (one_calendar false) 0 (timer_tick 82800)
                  (world0 watched_store) 82800 1700000000000
                  eq_refl eq_refl ltac:(simpl; lia))).
  simpl. lia.
Defined.

(** ** Dedupe ids *)

Lemma all_digits_dash_free (s : string) : all_digits s = true → dash_free s.
Proof.
  intros Hs x. revert s Hs. induction x as [|a x IH]; intros s Hs y Heq.
  - subst s. simpl in Hs. discriminate.
  - subst s. rewrite string_app_cons in Hs. simpl in Hs.
    apply andb_true_iff in Hs as [_ Hs]. by apply (IH _ Hs y).
Qed.

Lemma Number_toString_dash_free (n : number) :
  not_negative n → dash_free (Number_toString n).
Proof.
  destruct n as [[|p|p]|]; simpl; intros Hn.
  - by apply all_digits_dash_free.
  - apply all_digits_dash_free.
    change (pretty (Z.pos p)) with (pretty_N_go (N.pos p) "").
    by apply pretty_N_go_digits.
  - lia.
  - intros x y Heq.
    repeat (destruct x as [|? x]; [discriminate Heq|];
            rewrite string_app_cons in Heq;
            first [discriminate Heq | injection Heq as <- Heq]).
Qed.

Lemma dash_split_unique (s1 s2 d1 d2 : string) :
  dash_free d1 → dash_free d2 →
  s1 +:+ "-" +:+ d1 = s2 +:+ "-" +:+ d2 → s1 = s2 ∧ d1 = d2.
Proof.
  intros H1 H2 Heq.
  destruct (string_app_eq_app _ _ _ _ Heq) as [(x & -> & Hx)|(x & -> & Hx)].
  - destruct x as [|a x].
    + rewrite string_app_nil_r. split; [done|]. by injection Hx.
    + rewrite string_app_cons in Hx. injection Hx as <- Hx.
      by destruct (H1 x d2).
  - destruct x as [|a x].
    + rewrite string_app_nil_r. split; [done|]. by injection Hx.
    + rewrite string_app_cons in Hx. injection Hx as <- Hx.
      by destruct (H2 x d1).
Qed.

(** The dedupe id determines the item id and the update time: two events
    whose [updated] timestamps are not negative (or do not parse) and whose
    dedupe ids are equal have the same id, as a string, and the same
    timestamp. *)
Theorem generateMeta_id_injective (h : host) (e1 e2 : calendar_event) :
  not_negative (Date_parse h (ev_updated e1)) →
  not_negative (Date_parse h (ev_updated e2)) →
  meta_id (generateMeta h e1) = meta_id (generateMeta h e2) →
  ToString (ev_id e1) = ToString (ev_id e2) ∧
  Date_parse h (ev_updated e1) = Date_parse h (ev_updated e2).
Proof.
  intros H1 H2 Heq. unfold generateMeta in Heq. simpl in Heq.
  apply dash_split_unique in Heq as [Hid Hts];
    [|by apply Number_toString_dash_free..].
  split; [done|]. by apply Number_toString_inj.
Qed.

Lemma generateMeta_id_injective_witness :
  ToString (ev_id ev_a) = ToString (ev_id ev_a) ∧
  Date_parse_utc (ev_updated ev_a) = Date_parse_utc (ev_updated ev_a).
Proof.
  apply (generateMeta_id_injective (feed_host []) ev_a ev_a).
  - vm_compute. discriminate.
  - vm_compute. discriminate.
  - reflexivity.
Defined.

(** Before 1970 the dedupe id is ambiguous: an event ["x-"] updated 5 ms
    after the epoch and an event ["x"] updated 5 ms before it share the id
    ["x--5"]. *)
Example dedupe_id_collision_before_1970 :
  let e1 := mk_event "x-" "1970-01-01T00:00:00.000Z" "1970-01-01T00:00:00.005Z"
              "confirmed" in
  let e2 := mk_event "x" "1969-12-31T23:59:59.000Z" "1969-12-31T23:59:59.995Z"
              "confirmed" in
  meta_id (generateMeta (feed_host []) e1) = "x--5" ∧
  meta_id (generateMeta (feed_host []) e2) = "x--5".
Proof. split; vm_compute; reflexivity. Qed.

(** An event whose [updated] field is missing or does not parse gets the id
    of the item followed by ["-NaN"], whatever else changed: all such
    versions of one item share one dedupe id. *)
Theorem generateMeta_unparsed_update (h : host) (e : calendar_event) :
  Date_parse h (ev_updated e) = None →
  generateMeta h e
  = {| meta_id := ToString (ev_id e) +:+ "-NaN";
       meta_summary := ev_summary e;
       meta_ts := None |}.
Proof. intros Hts. unfold generateMeta. by rewrite Hts. Qed.

Lemma generateMeta_unparsed_update_witness :
  let e := {| ev_id := JStr "a"; ev_summary := JStr "s"; ev_created := JUndef;
              ev_updated := JUndef; ev_status := JStr "confirmed" |} in
  generateMeta (feed_host []) e
  = {| meta_id := "a-NaN"; meta_summary := JStr "s"; meta_ts := None |}.
Proof.
  intros e. exact (generateMeta_unparsed_update (feed_host []) e eq_refl).
Defined.

(** ** The options of the calendars prop *)

(** [options()] offers exactly the calendars of the response, in order: the
    i-th option has the i-th calendar's id as value and its summary as
    label; a response that is missing, or has no data or no items, offers
    nothing. *)
Theorem calendarIds_options_spec (calListResp : calendar_list_response) :
  length (calendarIds_options calListResp) = length (calendars_of calListResp) ∧
  (∀ i, calendarIds_options calListResp !! i
        = (λ item, {| opt_value := cl_id item; opt_label := cl_summary item |})
            <$> calendars_of calListResp !! i) ∧
  (calListResp ∈ [None; Some None; Some (Some None)] →
   calendarIds_options calListResp = []).
Proof.
  assert (Heq : calendarIds_options calListResp
    = (λ item, {| opt_value := cl_id item; opt_label := cl_summary item |})
        <$> calendars_of calListResp).
  { unfold calendarIds_options. by destruct (calendars_of calListResp). }
  split; [|split].
  - by rewrite Heq, length_fmap.
  - intros i. by rewrite Heq, list_lookup_fmap.
  - intros Hin. rewrite Heq.
    repeat (apply elem_of_cons in Hin as [-> | Hin]; [done|]).
    by apply elem_of_nil in Hin.
Qed.

Lemma calendarIds_options_spec_witness :
  calendarIds_options (Some None) = [].
Proof.
  apply (proj2 (proj2 (calendarIds_options_spec (Some None)))).
  apply list_elem_of_further, list_elem_of_here.
Defined.

(** ** Activation composed with what follows it *)

(** After an activation that succeeded for pairwise distinct calendar ids,
    a notification that carries the channel id of any of the watch responses
    and the resource state ["exists"] passes the filter and starts the
    fetch. (With a calendar id configured twice the second watch response
    overwrites the first, whose channel id is then unknown.) *)
Theorem notification_after_activation (h : host) (this : component)
    (fuel : nat) (event : trigger) (w : world) (wds : nat → watch_data)
    (toks : nat → jsval) (i : nat) :
  NoDup (calendarIds this) →
  (∀ j, (j < length (calendarIds this))%nat →
        watch_resp h (n_watch w + j) = Some (wds j)) →
  (∀ j, (j < length (calendarIds this))%nat →
        fullSync_resp h (n_fullSync w + j) = Some (toks j)) →
  (i < length (calendarIds this))%nat →
  is_tick event = None →
  header event "x-goog-channel-id" = wd_id (wds i) →
  header event "x-goog-resource-state" = JStr "exists" →
  let w' := (activate h this w).2 in
  run h this fuel event w' = fetch_and_emit h this fuel w'.
Proof.
  intros Hnodup Hw Hf Hi Htick Hchan Hstate w'.
  destruct (for_of_makeWatchRequest_ok h (calendarIds this) Hnodup w wds toks
              Hw Hf) as (w1 & Hrun & _ & Hfields).
  assert (Hw' : w' = w1).
  { unfold w', activate, makeWatchRequest. by rewrite Hrun. }
  rewrite Hw'. rewrite run_known_channel; [simpl; by rewrite Hstate|done|].
  destruct (lookup_lt_is_Some_2 (calendarIds this) i Hi) as [c Hc].
  rewrite Hchan. unfold persisted_channelIds.
  apply list_elem_of_fmap. exists c. split.
  - symmetry. apply (Hfields i c Hc).
  - by eapply list_elem_of_lookup_2.
Qed.

Lemma notification_after_activation_witness :
  let w' := (activate partial_stop_host two_calendars (world0 ∅)).2 in
  run partial_stop_host two_calendars 3 (notification "ch-1" "exists") w'
  = fetch_and_emit partial_stop_host two_calendars 3 w'.
Proof.
  apply (notification_after_activation partial_stop_host two_calendars 3
           (notification "ch-1" "exists") (world0 ∅)
           (λ n, {| wd_id := JStr ("ch-" +:+ pretty (Z.of_nat n));
                    wd_resourceId := JStr ("res-" +:+ pretty (Z.of_nat n));
                    wd_expiration := JStr "1700600000000" |})
           (λ n, JStr ("tok-" +:+ pretty (Z.of_nat n))) 1).
  - repeat constructor; [|by intros ?%elem_of_nil].
    intros Hin. apply list_elem_of_singleton in Hin. discriminate.
  - by intros.
  - by intros.
  - simpl. lia.
  - reflexivity.
  - reflexivity.
  - reflexivity.
Defined.

Lemma for_of_stop_204_fields (h : host) (l : list string) :
  (∀ n, stop_resp h n = Some 204) →
  ∀ w, ∃ w',
    for_of l (stopWatchRequest_body h) w = (Done tt, w') ∧
    (∀ key, db_lookup (db w') key = JNull
            ∨ db_lookup (db w') key = db_lookup (db w) key) ∧
    (∀ c f, c ∈ l → has_channel (db w) c = true → f ∈ calendar_fields →
            db_lookup (db w') (c +:+ f) = JNull).
Proof.
  intros Hstop. induction l as [|c l IH]; intros w.
  - exists w. split; [done|]. split; [by right|].
    intros c f Hc. by apply elem_of_nil in Hc.
  - destruct (stopWatchRequest_body_204 h c w (Hstop _)) as (w1 & Hrun1 & Hdb1).
    destruct (IH w1) as (w' & Hrun & Hdb & Hnull).
    exists w'. split; [|split].
    + simpl. unfold bind. by rewrite Hrun1.
    + intros key. destruct (Hdb key) as [?|Heq]; [by left|].
      rewrite Heq, Hdb1. destruct (_ && _); [by left|by right].
    + intros c' f Hin Hch Hf.
      destruct (decide (c' = c)) as [->|Hne].
      * destruct (Hdb (c +:+ f)) as [?|Heq]; [done|].
        rewrite Heq, Hdb1, Hch, andb_true_l.
        rewrite bool_decide_eq_true_2; [done|]. by apply field_key_in.
      * apply elem_of_cons in Hin as [?|Hin]; [done|].
        apply Hnull; [done| |done].
        unfold has_channel.
        rewrite (Hdb1 (c' +:+ ".channelId")), (Hdb1 (c' +:+ ".resourceId")).
        assert (Hout : ∀ g, g ∈ calendar_fields →
                  bool_decide (c' +:+ g ∈ (String.append c <$> calendar_fields))
                  = false).
        { intros g Hg. apply bool_decide_eq_false.
          intros (g' & Heq & Hg')%list_elem_of_fmap.
          apply field_key_inj in Heq as [? _]; done. }
        rewrite !Hout by auto using in_channel_field, in_resource_field.
        rewrite !andb_false_r. exact Hch.
Qed.

(** Activation followed by teardown: after an activation that succeeded
    with truthy channel and resource ids, a teardown whose stop calls are all
    answered with 204 returns normally and leaves the sync token, channel
    id, resource id and expiration of every configured calendar [null]. *)
Theorem activate_then_deactivate (h : host) (this : component) (w : world)
    (wds : nat → watch_data) (toks : nat → jsval) :
  NoDup (calendarIds this) →
  (∀ j, (j < length (calendarIds this))%nat →
        watch_resp h (n_watch w + j) = Some (wds j)) →
  (∀ j, (j < length (calendarIds this))%nat →
        fullSync_resp h (n_fullSync w + j) = Some (toks j)) →
  (∀ j, truthy (wd_id (wds j)) = true ∧ truthy (wd_resourceId (wds j)) = true) →
  (∀ n, stop_resp h n = Some 204) →
  let r := deactivate h this (activate h this w).2 in
  r.1 = Done tt ∧
  ∀ c f, c ∈ calendarIds this → f ∈ calendar_fields →
         db_lookup (db r.2) (c +:+ f) = JNull.
Proof.
  intros Hnodup Hw Hf Htruthy Hstop r.
  destruct (for_of_makeWatchRequest_ok h (calendarIds this) Hnodup w wds toks
              Hw Hf) as (w1 & Hrun1 & _ & Hfields).
  destruct (for_of_stop_204_fields h (calendarIds this) Hstop w1)
    as (w2 & Hrun2 & _ & Hnull).
  assert (Hr : r = (Done tt, w2)).
  { unfold r, activate, makeWatchRequest. rewrite Hrun1. exact Hrun2. }
  rewrite Hr. simpl. split; [done|].
  intros c f Hc Hfield. apply Hnull; [done| |done].
  apply list_elem_of_lookup in Hc as [i Hi].
  destruct (Hfields i c Hi) as (_ & Hchan & Hres & _).
  unfold has_channel. rewrite Hchan, Hres.
  destruct (Htruthy i) as [-> ->]. done.
Qed.

Lemma activate_then_deactivate_witness :
  let h := feed_host [] in
  let r := deactivate h two_calendars (activate h two_calendars (world0 ∅)).2 in
  r.1 = Done tt ∧
  ∀ c f, c ∈ ["work"; "home"] → f ∈ calendar_fields →
         db_lookup (db r.2) (c +:+ f) = JNull.
Proof.
  intros h.
  apply (activate_then_deactivate h two_calendars (world0 ∅)
           (λ n, {| wd_id := JStr ("ch-" +:+ pretty (Z.of_nat n));
                    wd_resourceId := JStr ("res-" +:+ pretty (Z.of_nat n));
                    wd_expiration := JStr "1700600000000" |})
           (λ _, JStr "tok-resync")).
  - repeat constructor; [|by intros ?%elem_of_nil].
    intros Hin. apply list_elem_of_singleton in Hin. discriminate.
  - by intros.
  - by intros.
  - by intros.
  - by intros.
Defined.
